(** * Items HTTP server: the in-memory handler ([server.ts]) and the SQLite
    handler ([server.sql.ts]), as a shallow embedding.

    A request is its method, its already-parsed [pathname] and its body.
    The body is abstracted by the outcome of [body ? JSON.parse(body) : undefined]:
    empty, non-empty text on which [JSON.parse] throws, or the text of a
    JSON value.  The strings of JSON values are JavaScript strings, lists of
    UTF-16 code units ([jsstring]); the method and the pathname, which node
    reads from the request line one byte per code unit, are Stdlib [string]s.
    The numbers the handlers compute with (ids, [nextId], what [parseInt]
    returns, [lastInsertRowid]) are doubles that are integers or infinite,
    kept as the [Z] of their value (see [to_number]); the handlers only test
    the numbers of a request body for zero. *)

From Stdlib Require Import String Ascii List ZArith Bool Lia Sorted.
Import ListNotations.
Set Warnings "-register-all".
Open Scope string_scope.
Open Scope Z_scope.

(** ** JavaScript numbers *)

(** The double nearest to the integer [z], ties to even (IEEE 754
    round-to-nearest), with no bound on the exponent: every integer up to
    2^53 in absolute value is exact; above, the 53 leading bits are kept. *)
Definition round_double (z : Z) : Z :=
  let a := Z.abs z in
  if a <=? 2 ^ 53 then z else
  let e := Z.log2 a - 52 in
  let q := a / 2 ^ e in
  let r := a mod 2 ^ e in
  let q' := if (2 ^ (e - 1) <? r) || ((r =? 2 ^ (e - 1)) && Z.odd q) then q + 1 else q in
  Z.sgn z * (q' * 2 ^ e).

(** The Number value of the integer [z] (ECMAScript's F(z)).  A number that
    is an integer or infinite is kept as the [Z] of its value, +Infinity and
    -Infinity as 2^1024 and -2^1024, which no finite double reaches, so that
    [x === y] is [x =? y]; -0 is kept as 0, equal to it under [===], the
    only comparison the handlers make on such numbers. *)
Definition to_number (z : Z) : Z :=
  let r := round_double z in
  if 2 ^ 1024 <=? Z.abs r then Z.sgn z * 2 ^ 1024 else r.

(** ** JavaScript strings *)

(** A JavaScript string: its UTF-16 code units. *)
Definition jsstring : Type := list Z.

(** A string literal of the source; they are all ASCII. *)
Definition js (s : string) : jsstring :=
  map (fun c => Z.of_nat (nat_of_ascii c)) (list_ascii_of_string s).

(** [a === b] on strings *)
Definition jseqb (a b : jsstring) : bool :=
  if list_eq_dec Z.eq_dec a b then true else false.

(** ** JSON values *)

Inductive json : Type :=
| JNull
| JBool (b : bool)
| JNum (n : Z)
| JStr (s : jsstring)
| JArr (l : list json)
| JObj (fields : list (jsstring * json)).

(** JavaScript truthiness of a value; [None] is [undefined]. *)
Definition truthy (v : option json) : bool :=
  match v with
  | None | Some JNull => false
  | Some (JBool b) => b
  | Some (JNum n) => negb (n =? 0)
  | Some (JStr s) => match s with [] => false | _ :: _ => true end
  | Some (JArr _) | Some (JObj _) => true
  end.

(** [data.k]: own property of an object parsed by [JSON.parse] (the last
    duplicate key wins); [undefined] on every other value. *)
Definition get_prop (v : option json) (k : jsstring) : option json :=
  match v with
  | Some (JObj fs) =>
      match find (fun p => jseqb (fst p) k) (rev fs) with
      | Some (_, x) => Some x
      | None => None
      end
  | _ => None
  end.

(** [typeof v === "string"] *)
Definition is_string (v : option json) : bool :=
  match v with Some (JStr _) => true | _ => false end.

(** ** String helpers of the JavaScript runtime *)

(** The white space and line terminators that [String.prototype.trim] and
    [parseInt] skip: TAB, LF, VT, FF, CR, SPACE, NO-BREAK SPACE, the other
    Unicode space separators (U+1680, U+2000 to U+200A, U+202F, U+205F,
    U+3000), LINE and PARAGRAPH SEPARATOR, and U+FEFF. *)
Definition is_ws (u : Z) : bool :=
  ((9 <=? u) && (u <=? 13)) || (u =? 32) || (u =? 160) || (u =? 5760) ||
  ((8192 <=? u) && (u <=? 8202)) || (u =? 8232) || (u =? 8233) || (u =? 8239) ||
  (u =? 8287) || (u =? 12288) || (u =? 65279).

Fixpoint trim_start (s : jsstring) : jsstring :=
  match s with
  | [] => []
  | c :: t => if is_ws c then trim_start t else s
  end.

Fixpoint trim_end (s : jsstring) : jsstring :=
  match s with
  | [] => []
  | c :: t =>
      match trim_end t with
      | [] => if is_ws c then [] else [c]
      | t' => c :: t'
      end
  end.

(** [s.trim()] *)
Definition trim (s : jsstring) : jsstring := trim_end (trim_start s).

(** [s.split(sep)] on a pathname *)
Fixpoint split (sep : ascii) (s : string) : list string :=
  match s with
  | EmptyString => [EmptyString]
  | String c t =>
      if Ascii.eqb c sep then EmptyString :: split sep t
      else match split sep t with
           | [] => [String c EmptyString]
           | w :: ws => String c w :: ws
           end
  end.

(** Digit value of the code unit [u] in radix [r], as [parseInt] reads it. *)
Definition digit_val (r : Z) (u : Z) : option Z :=
  let d := if (48 <=? u) && (u <=? 57) then u - 48
           else if (97 <=? u) && (u <=? 122) then u - 87
           else if (65 <=? u) && (u <=? 90) then u - 55
           else 99 in
  if d <? r then Some d else None.

(** The value of the longest prefix of radix-[r] digits; [None] when it is
    empty. *)
Fixpoint digits_prefix (r : Z) (s : jsstring) (acc : Z) (seen : bool) : option Z :=
  match s with
  | [] => if seen then Some acc else None
  | c :: t =>
      match digit_val r c with
      | Some d => digits_prefix r t (acc * r + d) true
      | None => if seen then Some acc else None
      end
  end.

(** [parseInt(s)] without a radix argument; [None] is [NaN].  The digits'
    value, an integer, is rounded to a Number. *)
Definition parseInt (s : jsstring) : option Z :=
  let s1 := trim_start s in
  let '(sign, s2) :=
    match s1 with
    | c :: t => if c =? 45 then (-1, t) else if c =? 43 then (1, t) else (1, s1)  (* '-' '+' *)
    | [] => (1, s1)
    end in
  let '(radix, s3) :=
    match s2 with
    | c :: x :: t =>
        if (c =? 48) && ((x =? 120) || (x =? 88)) then (16, t) else (10, s2)  (* "0x" "0X" *)
    | _ => (10, s2)
    end in
  match digits_prefix radix s3 0 false with
  | Some v => Some (to_number (sign * v))
  | None => None
  end.

(** [parseInt(path.split("/")[2])]; a missing segment is [undefined],
    which [parseInt] reads as the string "undefined". *)
Definition parse_id (path : string) : option Z :=
  parseInt (js (nth 2 (split "/" path) "undefined")).

(** [path.startsWith("/items/")] *)
Definition starts_with_items (path : string) : bool := String.prefix "/items/" path.

(** ** [validateItemInput] (identical in both server files) *)

Definition errors_push (errs : list string) (cond : bool) (msg : string) : list string :=
  if cond then errs ++ [msg] else errs.

(** [!v || typeof v !== "string" || v.trim().length === 0] *)
Definition missing_or_blank (v : option json) : bool :=
  negb (truthy v) || negb (is_string v) ||
  match v with Some (JStr s) => (length (trim s) =? 0)%nat | _ => false end.

(** [v && typeof v === "string" && v.length > max] *)
Definition too_long (v : option json) (max : nat) : bool :=
  truthy v && is_string v &&
  match v with Some (JStr s) => (max <? length s)%nat | _ => false end.

Definition validateItemInput (data : option json) : bool * list string :=
  if negb (truthy data) then (false, ["Request body is required"]) else
  let name := get_prop data (js "name") in
  let description := get_prop data (js "description") in
  let errs := [] in
  let errs := errors_push errs (missing_or_blank name)
                "Name is required and must be a non-empty string" in
  let errs := errors_push errs (missing_or_blank description)
                "Description is required and must be a non-empty string" in
  let errs := errors_push errs (too_long name 100) "Name must be 100 characters or less" in
  let errs := errors_push errs (too_long description 500)
                "Description must be 500 characters or less" in
  ((length errs =? 0)%nat, errs).

(** ** Requests and responses *)

Inductive req_body : Type :=
| NoBody                (** the empty body: [data] is [undefined] *)
| Malformed             (** non-empty text on which [JSON.parse] throws *)
| JsonText (v : json).  (** non-empty text that [JSON.parse] reads as [v] *)

Record request : Type := mkRequest {
  method : string;
  pathname : string;
  body : req_body
}.

Record response : Type := mkResponse {
  status : Z;
  headers : list (string * string);
  payload : option json
}.

Record item : Type := mkItem {
  id : Z;
  name : jsstring;
  description : jsstring
}.

(** [item.id === n] *)
Definition has_id (n : Z) (it : item) : bool := id it =? n.

Definition item_json (it : item) : json :=
  JObj [(js "id", JNum (id it)); (js "name", JStr (name it));
        (js "description", JStr (description it))].

Definition cors_headers : list (string * string) :=
  [("Access-Control-Allow-Origin", "*");
   ("Access-Control-Allow-Methods", "GET, POST, PUT, DELETE");
   ("Access-Control-Allow-Headers", "Content-Type")].

(** [res.writeHead(code, {"Content-Type": "application/json"}); res.end(JSON.stringify(v))] *)
Definition json_response (code : Z) (v : json) : response :=
  mkResponse code (cors_headers ++ [("Content-Type", "application/json")]) (Some v).

Definition options_response : response := mkResponse 200 cors_headers None.
Definition error_response (code : Z) (msg : string) : response :=
  json_response code (JObj [(js "error", JStr (js msg))]).
Definition invalid_id_response : response := error_response 400 "Invalid item ID".
Definition item_not_found_response : response := error_response 404 "Item not found".
Definition not_found_response : response := error_response 404 "Not found".
Definition invalid_json_response : response := error_response 400 "Invalid JSON".
Definition server_error_response : response := error_response 500 "Internal server error".
Definition validation_failed_response (errs : list string) : response :=
  json_response 400 (JObj [(js "error", JStr (js "Validation failed"));
                           (js "details", JArr (map (fun e => JStr (js e)) errs))]).
Definition deleted_response (it : item) : response :=
  json_response 200 (JObj [(js "message", JStr (js "Item deleted")); (js "item", item_json it)]).

(** [body ? JSON.parse(body) : undefined]: [None] when [JSON.parse] throws. *)
Definition parse_body (b : req_body) : option (option json) :=
  match b with
  | NoBody => Some None
  | Malformed => None
  | JsonText v => Some (Some v)
  end.

(** [data.name.trim()] and [data.description.trim()], once validation passed. *)
Definition trimmed_fields (data : option json) : option (jsstring * jsstring) :=
  match get_prop data (js "name"), get_prop data (js "description") with
  | Some (JStr n), Some (JStr d) => Some (trim n, trim d)
  | _, _ => None
  end.

(** ** Running a handler on a sequence of requests *)

Section Run.
Variable state : Type.
Variable step : state -> request -> response * state.

Fixpoint run (s : state) (rs : list request) : list response * state :=
  match rs with
  | [] => ([], s)
  | r :: rs' =>
      let '(resp, s1) := step s r in
      let '(resps, s2) := run s1 rs' in
      (resp :: resps, s2)
  end.

Inductive reachable (init : state) : state -> Prop :=
| reach_init : reachable init init
| reach_step s r : reachable init s -> reachable init (snd (step s r)).
End Run.

Arguments run {state} step s rs.
Arguments reachable {state} step init _.

(** ** The in-memory server ([server.ts]) *)

Module Mem.

(** [let items: Item[] = []; let nextId = 1;] *)
Record state : Type := mkState { items : list item; nextId : Z }.

Definition init : state := mkState [] 1.

(** [resetMyServerData] *)
Definition reset (_ : state) : state := init.

(** [items[items.findIndex(item => item.id === n)] = it] *)
Fixpoint replace_first (n : Z) (it : item) (l : list item) : list item :=
  match l with
  | [] => []
  | x :: l' => if has_id n x then it :: l' else x :: replace_first n it l'
  end.

(** [items.splice(items.findIndex(item => item.id === n), 1)] *)
Fixpoint remove_first (n : Z) (l : list item) : list item :=
  match l with
  | [] => []
  | x :: l' => if has_id n x then l' else x :: remove_first n l'
  end.

Definition handle (s : state) (r : request) : response * state :=
  let m := method r in
  let path := pathname r in
  if String.eqb m "OPTIONS" then (options_response, s) else
  if String.eqb m "GET" && String.eqb path "/items" then
    (json_response 200 (JArr (map item_json (items s))), s)
  else if String.eqb m "GET" && starts_with_items path then
    match parse_id path with
    | None => (invalid_id_response, s)
    | Some n =>
        match find (has_id n) (items s) with
        | Some it => (json_response 200 (item_json it), s)
        | None => (item_not_found_response, s)
        end
    end
  else if String.eqb m "POST" && String.eqb path "/items" then
    match parse_body (body r) with
    | None => (invalid_json_response, s)
    | Some data =>
        let '(isValid, errs) := validateItemInput data in
        if negb isValid then (validation_failed_response errs, s) else
        match trimmed_fields data with
        | Some (nm, d) =>
            let newItem := mkItem (nextId s) nm d in
            (json_response 201 (item_json newItem),
             mkState (items s ++ [newItem]) (to_number (nextId s + 1)))  (* nextId++ *)
        | None => (invalid_json_response, s)
        end
    end
  else if String.eqb m "PUT" && starts_with_items path then
    match parse_id path with
    | None => (invalid_id_response, s)
    | Some n =>
        match find (has_id n) (items s) with
        | None => (item_not_found_response, s)
        | Some _ =>
            match parse_body (body r) with
            | None => (invalid_json_response, s)
            | Some data =>
                let '(isValid, errs) := validateItemInput data in
                if negb isValid then (validation_failed_response errs, s) else
                match trimmed_fields data with
                | Some (nm, d) =>
                    let updated := mkItem n nm d in
                    (json_response 200 (item_json updated),
                     mkState (replace_first n updated (items s)) (nextId s))
                | None => (invalid_json_response, s)
                end
            end
        end
    end
  else if String.eqb m "DELETE" && starts_with_items path then
    match parse_id path with
    | None => (invalid_id_response, s)
    | Some n =>
        match find (has_id n) (items s) with
        | None => (item_not_found_response, s)
        | Some deletedItem =>
            (deleted_response deletedItem,
             mkState (remove_first n (items s)) (nextId s))
        end
    end
  else (not_found_response, s).

End Mem.

(** ** Text through SQLite *)

Definition is_high_surrogate (u : Z) : bool := (55296 <=? u) && (u <=? 56319).
Definition is_low_surrogate (u : Z) : bool := (56320 <=? u) && (u <=? 57343).

(** A string bound to a TEXT parameter by better-sqlite3, as it is read
    back from the column: V8 encodes it in UTF-8, writing U+FFFD for every
    lone surrogate, and the stored UTF-8 decodes to that string. *)
Fixpoint sqlite_text (s : jsstring) : jsstring :=
  match s with
  | [] => []
  | u :: t =>
      if is_high_surrogate u then
        match t with
        | v :: t' =>
            if is_low_surrogate v then u :: v :: sqlite_text t' else 65533 :: sqlite_text t
        | [] => [65533]
        end
      else if is_low_surrogate u then 65533 :: sqlite_text t
      else u :: sqlite_text t
  end.

(** [s.isWellFormed()]: [s] has no lone surrogate. *)
Fixpoint well_formed (s : jsstring) : bool :=
  match s with
  | [] => true
  | u :: t =>
      if is_high_surrogate u then
        match t with
        | v :: t' => is_low_surrogate v && well_formed t'
        | [] => false
        end
      else negb (is_low_surrogate u) && well_formed t
  end.

(** ** The SQLite server ([server.sql.ts])

    The table [items (id INTEGER PRIMARY KEY AUTOINCREMENT, ...)] is its
    rows, in the order they were inserted, and the [sqlite_sequence] entry
    of the table ([0] when absent).  A row is an [item] whose [id] is its
    rowid, a 64-bit integer, and whose name and description are the TEXT
    stored.  The statements follow SQLite's semantics; every statement
    succeeds (in particular AUTOINCREMENT never runs out of rowids, which
    would fail an INSERT with SQLITE_FULL after rowid 2^63 - 1). *)

Module Sql.

Record state : Type := mkState { rows : list item; seq : Z }.

(** A fresh database file after [initDatabase]. *)
Definition init : state := mkState [] 0.

(** [resetMyServerData]: [DELETE FROM items] and
    [DELETE FROM sqlite_sequence WHERE name = 'items'], [db] being open. *)
Definition reset (_ : state) : state := mkState [] 0.

Fixpoint insert_by_id (it : item) (l : list item) : list item :=
  match l with
  | [] => [it]
  | x :: l' => if id it <=? id x then it :: l else x :: insert_by_id it l'
  end.

(** A row as better-sqlite3 returns it: the INTEGER [id] as a Number, the
    TEXT columns as strings. *)
Definition read (r : item) : item := mkItem (to_number (id r)) (name r) (description r).

(** [SELECT * FROM items ORDER BY id] *)
Definition select_all (s : state) : list item :=
  map read (fold_right insert_by_id [] (rows s)).

(** [SELECT * FROM items WHERE id = ?], the id bound as a double: the row
    whose rowid has that value. *)
Definition select_by_id (s : state) (n : Z) : option item :=
  option_map read (find (has_id n) (rows s)).

Definition max_rowid (l : list item) : Z := fold_right (fun it m => Z.max (id it) m) 0 l.

(** [INSERT INTO items (name, description) VALUES (?, ?)]: AUTOINCREMENT
    takes one more than the largest of [sqlite_sequence] and the current
    rowids; the result's [lastInsertRowid] is that rowid as a Number. *)
Definition insert (s : state) (nm d : jsstring) : Z * state :=
  let rowid := Z.max (seq s) (max_rowid (rows s)) + 1 in
  (to_number rowid, mkState (rows s ++ [mkItem rowid (sqlite_text nm) (sqlite_text d)]) rowid).

(** [UPDATE items SET name = ?, description = ? WHERE id = ?] *)
Definition update (s : state) (n : Z) (nm d : jsstring) : state :=
  mkState (map (fun it => if has_id n it then mkItem (id it) (sqlite_text nm) (sqlite_text d) else it)
               (rows s))
          (seq s).

(** [DELETE FROM items WHERE id = ?] *)
Definition delete (s : state) (n : Z) : state :=
  mkState (filter (fun it => negb (has_id n it)) (rows s)) (seq s).

Definition handle (s : state) (r : request) : response * state :=
  let m := method r in
  let path := pathname r in
  if String.eqb m "OPTIONS" then (options_response, s) else
  if String.eqb m "GET" && String.eqb path "/items" then
    (json_response 200 (JArr (map item_json (select_all s))), s)
  else if String.eqb m "GET" && starts_with_items path then
    match parse_id path with
    | None => (invalid_id_response, s)
    | Some n =>
        match select_by_id s n with
        | Some it => (json_response 200 (item_json it), s)
        | None => (item_not_found_response, s)
        end
    end
  else if String.eqb m "POST" && String.eqb path "/items" then
    match parse_body (body r) with
    | None => (invalid_json_response, s)
    | Some data =>
        let '(isValid, errs) := validateItemInput data in
        if negb isValid then (validation_failed_response errs, s) else
        match trimmed_fields data with
        | Some (nm, d) =>
            let '(lastInsertRowid, s') := insert s nm d in
            (json_response 201 (item_json (mkItem lastInsertRowid nm d)), s')
        | None => (server_error_response, s)  (* a TypeError, not a SyntaxError *)
        end
    end
  else if String.eqb m "PUT" && starts_with_items path then
    match parse_id path with
    | None => (invalid_id_response, s)
    | Some n =>
        match select_by_id s n with
        | None => (item_not_found_response, s)
        | Some _ =>
            match parse_body (body r) with
            | None => (invalid_json_response, s)
            | Some data =>
                let '(isValid, errs) := validateItemInput data in
                if negb isValid then (validation_failed_response errs, s) else
                match trimmed_fields data with
                | Some (nm, d) =>
                    (json_response 200 (item_json (mkItem n nm d)), update s n nm d)
                | None => (server_error_response, s)
                end
            end
        end
    end
  else if String.eqb m "DELETE" && starts_with_items path then
    match parse_id path with
    | None => (invalid_id_response, s)
    | Some n =>
        match select_by_id s n with
        | Some it => (deleted_response it, delete s n)
        | None => (item_not_found_response, s)
        end
    end
  else (not_found_response, s).

End Sql.

(** ** Sample requests *)

Definition get_all : request := mkRequest "GET" "/items" NoBody.
Definition get_one (seg : string) : request := mkRequest "GET" ("/items/" ++ seg) NoBody.
Definition post_item (b : req_body) : request := mkRequest "POST" "/items" b.

Definition sample_body (nm d : string) : json :=
  JObj [(js "name", JStr (js nm)); (js "description", JStr (js d))].
Definition item_body (nm d : string) : req_body := JsonText (sample_body nm d).

(** [`/items/${n}`]: the decimal text of a non-negative id. *)
Definition digit_char (d : Z) : ascii := ascii_of_nat (48 + Z.to_nat d).

Fixpoint digits_acc (fuel : nat) (n : Z) (tail : string) : string :=
  match fuel with
  | O => String (digit_char (n mod 10)) tail
  | S f =>
      if n <? 10 then String (digit_char n) tail
      else digits_acc f (n / 10) (String (digit_char (n mod 10)) tail)
  end.

Definition decimal (n : Z) : string := digits_acc (S (Z.to_nat (Z.log2 n))) n "".

Definition item_path (n : Z) : string := "/items/" ++ decimal n.

(** The id of an item created by a response: [201] and its [id] field. *)
Definition created_id (r : response) : option Z :=
  if status r =? 201 then
    match get_prop (payload r) (js "id") with Some (JNum k) => Some k | _ => None end
  else None.

Definition created_ids (rs : list response) : list Z :=
  flat_map (fun r => match created_id r with Some k => [k] | None => [] end) rs.

Definition is_digit (c : ascii) : bool :=
  match digit_val 10 (Z.of_nat (nat_of_ascii c)) with Some _ => true | None => false end.

(** Ten spaces, then 95 letters: 95 characters once trimmed, 105 raw. *)
Definition padded_name : jsstring := (repeat 32 10 ++ repeat 97 95)%list.


Definition three_posts : list request :=
  [post_item (item_body "a" "x"); post_item (item_body "b" "y"); post_item (item_body "c" "z")].

Definition fields_ok (nm d : jsstring) : Prop :=
  (1 <= length (trim nm) /\ length nm <= 100 /\
   1 <= length (trim d) /\ length d <= 500)%nat.

(** What every reachable in-memory state satisfies: ids never decrease
    along the list and lie in [1, nextId], and [1 <= nextId <= 2^53]
    ([nextId++] stops at 2^53, where adding 1 rounds back to 2^53). *)
Definition mem_ok (s : Mem.state) : Prop :=
  StronglySorted Z.le (map id (Mem.items s)) /\
  Forall (fun k => 1 <= k <= Mem.nextId s) (map id (Mem.items s)) /\
  1 <= Mem.nextId s <= 2 ^ 53.

(** The in-memory store's invariant while every id is exact: ids strictly
    increase along the list and lie in [1, nextId), [nextId <= 2^53]. *)
Definition store_inv (s : Mem.state) : Prop :=
  StronglySorted Z.lt (map id (Mem.items s)) /\
  Forall (fun k => 1 <= k < Mem.nextId s) (map id (Mem.items s)) /\
  1 <= Mem.nextId s <= 2 ^ 53.

(** What every reachable SQLite state satisfies: rowids strictly increase
    in insertion order and lie in [1, sqlite_sequence]. *)
Definition sql_ok (q : Sql.state) : Prop :=
  StronglySorted Z.lt (map id (Sql.rows q)) /\
  Forall (fun k => 1 <= k <= Sql.seq q) (map id (Sql.rows q)) /\
  0 <= Sql.seq q.

(** An item with its name and description as SQLite stores them. *)
Definition text_item (it : item) : item :=
  mkItem (id it) (sqlite_text (name it)) (sqlite_text (description it)).

(** An in-memory state whose names and descriptions went through SQLite. *)
Definition text_state (m : Mem.state) : Mem.state :=
  Mem.mkState (map text_item (Mem.items m)) (Mem.nextId m).

(** Every stored name and description comes back from SQLite unchanged. *)
Definition items_fixed (m : Mem.state) : Prop :=
  Forall (fun it => text_item it = it) (Mem.items m).

(** The SQLite state that mirrors an in-memory state: the same rows with
    their text through SQLite, and [sqlite_sequence] one below [nextId]. *)
Definition sim_rel (m : Mem.state) (q : Sql.state) : Prop :=
  Sql.rows q = map text_item (Mem.items m) /\ Sql.seq q = Mem.nextId m - 1 /\ store_inv m.

(** Every string of a JSON value as SQLite would return it. *)
Fixpoint json_text (v : json) : json :=
  match v with
  | JStr s => JStr (sqlite_text s)
  | JArr l => JArr (map json_text l)
  | JObj fs => JObj (map (fun p => (fst p, json_text (snd p))) fs)
  | _ => v
  end.

Definition response_text (r : response) : response :=
  mkResponse (status r) (headers r) (option_map json_text (payload r)).

(** Every string value in a JSON value is well formed. *)
Fixpoint json_wf (v : json) : bool :=
  match v with
  | JStr s => well_formed s
  | JArr l => forallb json_wf l
  | JObj fs => forallb (fun p => json_wf (snd p)) fs
  | _ => true
  end.

Definition body_wf (b : req_body) : bool :=
  match b with JsonText v => json_wf v | _ => true end.

Ltac reduce_handler :=
  cbn -[validateItemInput trimmed_fields parse_id starts_with_items to_number js sqlite_text].


(** [start, start + 1, ..., start + k - 1] *)
Fixpoint zseq (start : Z) (k : nat) : list Z :=
  match k with
  | O => []
  | S k' => start :: zseq (start + 1) k'
  end.

(** The items 1, ..., 2^53 - 1, all named and described "a". *)
Definition full_prefix : list item :=
  map (fun i => mkItem i (js "a") (js "a")) (zseq 1 (Z.to_nat (2 ^ 53 - 1))).

(** The in-memory store after 2^53 POSTs of {name: "a", description: "a"}
    from the empty store. *)
Definition mem_full : Mem.state :=
  snd (run Mem.handle Mem.init (repeat (post_item (item_body "a" "a")) (Z.to_nat (2 ^ 53)))).

(** The routes both servers serve, in the order of their tests: OPTIONS on
    any path, GET on "/items" or "/items/...", POST on "/items", PUT and
    DELETE on "/items/...". *)
Definition is_routed (m path : string) : bool :=
  String.eqb m "OPTIONS" ||
  (String.eqb m "GET" && (String.eqb path "/items" || starts_with_items path)) ||
  (String.eqb m "POST" && String.eqb path "/items") ||
  ((String.eqb m "PUT" || String.eqb m "DELETE") && starts_with_items path).

(** The route tests of a request, one boolean at a time. *)
Ltac route_atoms m p :=
  destruct (String.eqb m "OPTIONS"); destruct (String.eqb m "GET");
  destruct (String.eqb p "/items"); destruct (starts_with_items p);
  destruct (String.eqb m "POST"); destruct (String.eqb m "PUT");
  destruct (String.eqb m "DELETE"); cbn [andb orb].

(** A request that changed the store was a write. *)
Ltac write_leaf :=
  first
    [ left; reflexivity
    | right; left; split; [apply String.eqb_eq; assumption | reflexivity]
    | right; right; split;
        [first [left; apply String.eqb_eq; assumption | right; apply String.eqb_eq; assumption]
        | reflexivity] ].

(** A validated body always has the two string fields the handlers read
    ([fields_valid] proves it). *)
Ltac valid_without_fields fields_valid :=
  match goal with
  | H1 : validateItemInput ?d = (?ok, _), H2 : negb ?ok = false,
    H3 : trimmed_fields ?d = None |- _ =>
      exfalso; apply negb_false_iff in H2; subst ok;
      destruct (fields_valid d) as (? & ? & ?); [rewrite H1; reflexivity | congruence]
  end.

(** Case analysis along a handler's chain of tests. *)
Ltac split_handler :=
  repeat match goal with
         | |- context [if ?c then _ else _] => destruct c eqn:?
         | |- context [match ?x with Some _ => _ | None => _ end] => destruct x eqn:?
         | |- context [match ?x with pair _ _ => _ end] => destruct x eqn:?
         end.

(** * Validation *)

Lemma get_prop_obj v k x : get_prop (Some v) k = Some x -> exists fs, v = JObj fs.
Proof. destruct v; simpl; try discriminate; eauto. Qed.

Lemma missing_or_blank_str s :
  missing_or_blank (Some (JStr s)) = (length (trim s) =? 0)%nat.
Proof. destruct s; reflexivity. Qed.

Lemma too_long_str s m : too_long (Some (JStr s)) m = (m <? length s)%nat.
Proof. destruct s; [destruct m|]; reflexivity. Qed.

Lemma missing_or_blank_false v :
  missing_or_blank v = false -> exists s, v = Some (JStr s).
Proof.
  destruct v as [[]|]; unfold missing_or_blank; simpl; rewrite ?orb_true_r;
  simpl; try discriminate; eauto.
Qed.

Lemma errors_push_length e c m :
  length (errors_push e c m) = (length e + if c then 1 else 0)%nat.
Proof. unfold errors_push; destruct c; rewrite ?length_app; simpl; lia. Qed.

Lemma validate_strings v nm d :
  get_prop (Some v) (js "name") = Some (JStr nm) ->
  get_prop (Some v) (js "description") = Some (JStr d) ->
  validateItemInput (Some v) =
    (let errs := errors_push [] ((length (trim nm) =? 0)%nat)
                   "Name is required and must be a non-empty string" in
     let errs := errors_push errs ((length (trim d) =? 0)%nat)
                   "Description is required and must be a non-empty string" in
     let errs := errors_push errs ((100 <? length nm)%nat)
                   "Name must be 100 characters or less" in
     let errs := errors_push errs ((500 <? length d)%nat)
                   "Description must be 500 characters or less" in
     ((length errs =? 0)%nat, errs)).
Proof.
  intros Hn Hd. destruct (get_prop_obj _ _ _ Hn) as [fs ->].
  unfold validateItemInput. cbv zeta.
  change (negb (truthy (Some (JObj fs)))) with false. cbv iota.
  rewrite Hn, Hd, !missing_or_blank_str, !too_long_str. reflexivity.
Qed.

Lemma validate_strings_ok v nm d :
  get_prop (Some v) (js "name") = Some (JStr nm) ->
  get_prop (Some v) (js "description") = Some (JStr d) ->
  fst (validateItemInput (Some v)) = true <-> fields_ok nm d.
Proof.
  intros Hn Hd. rewrite (validate_strings v nm d Hn Hd). cbv zeta. simpl fst.
  rewrite !errors_push_length. unfold fields_ok.
  destruct (length (trim nm) =? 0)%nat eqn:E1;
  destruct (length (trim d) =? 0)%nat eqn:E2;
  destruct (100 <? length nm)%nat eqn:E3;
  destruct (500 <? length d)%nat eqn:E4; simpl;
  rewrite ?Nat.eqb_eq, ?Nat.eqb_neq, ?Nat.ltb_lt, ?Nat.ltb_ge in *;
  split; intros; try discriminate; try lia; auto.
Qed.

Lemma validate_valid_fields data :
  fst (validateItemInput data) = true ->
  exists nm d, get_prop data (js "name") = Some (JStr nm) /\
               get_prop data (js "description") = Some (JStr d).
Proof.
  unfold validateItemInput. destruct (negb (truthy data)); [discriminate|].
  cbv zeta. simpl fst. rewrite !errors_push_length.
  destruct (missing_or_blank (get_prop data (js "name"))) eqn:E1;
  destruct (missing_or_blank (get_prop data (js "description"))) eqn:E2;
  simpl; rewrite ?Nat.add_succ_r; try discriminate; intros _.
  destruct (missing_or_blank_false _ E1) as [nm Hn].
  destruct (missing_or_blank_false _ E2) as [d Hd]. eauto.
Qed.

Lemma trimmed_fields_strings data nm d :
  get_prop data (js "name") = Some (JStr nm) ->
  get_prop data (js "description") = Some (JStr d) ->
  trimmed_fields data = Some (trim nm, trim d).
Proof. intros Hn Hd. unfold trimmed_fields. rewrite Hn, Hd. reflexivity. Qed.

Lemma trimmed_fields_valid data :
  fst (validateItemInput data) = true -> exists nm d, trimmed_fields data = Some (nm, d).
Proof.
  intros H. destruct (validate_valid_fields _ H) as (nm & d & Hn & Hd).
  exists (trim nm), (trim d). now apply trimmed_fields_strings.
Qed.

Lemma validate_falsy data :
  truthy data = false -> validateItemInput data = (false, ["Request body is required"]).
Proof. intros H. unfold validateItemInput. rewrite H. reflexivity. Qed.

Lemma in_errors_push x e c m : In x (errors_push e c m) <-> In x e \/ (c = true /\ x = m).
Proof.
  unfold errors_push. destruct c; rewrite ?in_app_iff; simpl; intuition congruence.
Qed.

(** * Paths *)

Lemma prefix_app s1 s2 : String.prefix s1 s2 = true -> exists r, s2 = (s1 ++ r)%string.
Proof.
  revert s2. induction s1 as [|a s1 IH]; intros s2 H; [exists s2; reflexivity|].
  destruct s2 as [|b s2]; simpl in H; [discriminate|].
  destruct (ascii_dec a b) as [<-|]; [|discriminate].
  destruct (IH s2 H) as [r ->]. exists r. reflexivity.
Qed.

Lemma starts_with_items_app r : starts_with_items ("/items/" ++ r) = true.
Proof. destruct r; reflexivity. Qed.

Lemma starts_with_items_not_list path :
  starts_with_items path = true -> String.eqb path "/items" = false.
Proof. intros H. destruct (prefix_app _ _ H) as [r ->]. reflexivity. Qed.

Lemma split_no_sep sep seg :
  ~ In sep (list_ascii_of_string seg) -> split sep seg = [seg].
Proof.
  induction seg as [|c seg IH]; intros H; [reflexivity|]. simpl in *.
  destruct (Ascii.eqb c sep) eqn:E.
  - apply Ascii.eqb_eq in E. tauto.
  - rewrite IH by tauto. reflexivity.
Qed.

Lemma split_sep_app sep seg rest :
  ~ In sep (list_ascii_of_string seg) ->
  split sep (seg ++ String sep rest) = seg :: split sep rest.
Proof.
  induction seg as [|c seg IH]; intros H; simpl.
  - rewrite Ascii.eqb_refl. reflexivity.
  - simpl in H. destruct (Ascii.eqb c sep) eqn:E.
    + apply Ascii.eqb_eq in E. tauto.
    + rewrite IH by tauto. reflexivity.
Qed.

(** Segment 2 of ["/items/" ++ r] is the text of [r] up to its first ['/']. *)
Lemma parse_id_items r :
  parse_id ("/items/" ++ r) = parseInt (js (nth 0 (split "/" r) "undefined")).
Proof.
  unfold parse_id. simpl. destruct (split "/" r); reflexivity.
Qed.

(** A handler reads the path only through [path === "/items"],
    [path.startsWith("/items/")] and segment 2. *)
Lemma Mem_handle_path s m p1 p2 b :
  String.eqb p1 "/items" = String.eqb p2 "/items" ->
  starts_with_items p1 = starts_with_items p2 ->
  parse_id p1 = parse_id p2 ->
  Mem.handle s (mkRequest m p1 b) = Mem.handle s (mkRequest m p2 b).
Proof.
  intros H1 H2 H3. unfold Mem.handle. cbn [method pathname body].
  rewrite H1, H2, H3. reflexivity.
Qed.

Lemma Sql_handle_path q m p1 p2 b :
  String.eqb p1 "/items" = String.eqb p2 "/items" ->
  starts_with_items p1 = starts_with_items p2 ->
  parse_id p1 = parse_id p2 ->
  Sql.handle q (mkRequest m p1 b) = Sql.handle q (mkRequest m p2 b).
Proof.
  intros H1 H2 H3. unfold Sql.handle. cbn [method pathname body].
  rewrite H1, H2, H3. reflexivity.
Qed.


Lemma nan_id_routes (m path : string) (b : req_body) (s : Mem.state) (q : Sql.state) :
  In m ["GET"; "PUT"; "DELETE"] ->
  starts_with_items path = true ->
  parse_id path = None ->
  Mem.handle s (mkRequest m path b) = (invalid_id_response, s) /\
  Sql.handle q (mkRequest m path b) = (invalid_id_response, q).
Proof.
  intros Hm Hp Hid. pose proof (starts_with_items_not_list _ Hp) as Hl.
  simpl in Hm. destruct Hm as [<-|[<-|[<-|[]]]];
    unfold Mem.handle, Sql.handle; reduce_handler; rewrite ?Hl, ?Hp, ?Hid;
    split; reflexivity.
Qed.

(** * Properties of the handlers *)

(** C1 (amended).  For a body whose [name] and [description] are strings,
    POST /items answers 201, and PUT on an existing id answers 200, exactly
    when both trimmed strings are non-empty and the UNTRIMMED strings have at
    most 100 and 500 characters; "Name must be 100 characters or less" is
    reported exactly when the untrimmed name is longer than 100. *)
Theorem validation_length_limits_untrimmed (s : Mem.state) (q : Sql.state)
    (v : json) (nm d : jsstring) :
  get_prop (Some v) (js "name") = Some (JStr nm) ->
  get_prop (Some v) (js "description") = Some (JStr d) ->
  (status (fst (Mem.handle s (post_item (JsonText v)))) = 201 <-> fields_ok nm d) /\
  (status (fst (Sql.handle q (post_item (JsonText v)))) = 201 <-> fields_ok nm d) /\
  (forall path n,
     starts_with_items path = true -> parse_id path = Some n ->
     find (has_id n) (Mem.items s) <> None ->
     status (fst (Mem.handle s (mkRequest "PUT" path (JsonText v)))) = 200
     <-> fields_ok nm d) /\
  (forall path n,
     starts_with_items path = true -> parse_id path = Some n ->
     Sql.select_by_id q n <> None ->
     status (fst (Sql.handle q (mkRequest "PUT" path (JsonText v)))) = 200
     <-> fields_ok nm d) /\
  (In "Name must be 100 characters or less" (snd (validateItemInput (Some v)))
   <-> (100 < length nm)%nat).
Proof.
  intros Hn Hd.
  pose proof (validate_strings_ok v nm d Hn Hd) as Hok.
Local Ltac validation_outcome v Hn Hd Hok :=
    destruct (validateItemInput (Some v)) as [ok errs] eqn:E;
    rewrite (trimmed_fields_strings _ _ _ Hn Hd), <- Hok;
    destruct ok; simpl; split; intros; first [reflexivity | discriminate].
  split; [|split; [|split; [|split]]].
  - unfold Mem.handle. reduce_handler. validation_outcome v Hn Hd Hok.
  - unfold Sql.handle. reduce_handler. validation_outcome v Hn Hd Hok.
  - intros path n Hp Hid Hf. unfold Mem.handle. reduce_handler. rewrite Hp, Hid.
    destruct (find (has_id n) (Mem.items s)); [|contradiction]. cbn.
    validation_outcome v Hn Hd Hok.
  - intros path n Hp Hid Hf. unfold Sql.handle. reduce_handler. rewrite Hp, Hid.
    destruct (Sql.select_by_id q n); [|contradiction]. cbn.
    validation_outcome v Hn Hd Hok.
  - rewrite (validate_strings v nm d Hn Hd). cbv zeta. simpl snd.
    rewrite !in_errors_push, Nat.ltb_lt. simpl. intuition congruence.
    all: discriminate.
Qed.

Lemma validation_length_limits_untrimmed_witness :
  get_prop (Some (sample_body "a" "b")) (js "name") = Some (JStr (js "a")) /\
  get_prop (Some (sample_body "a" "b")) (js "description") = Some (JStr (js "b")) /\
  (status (fst (Mem.handle Mem.init (post_item (JsonText (sample_body "a" "b"))))) = 201
   <-> fields_ok (js "a") (js "b")).
Proof.
  split; [reflexivity|]. split; [reflexivity|].
  exact (proj1 (validation_length_limits_untrimmed Mem.init Sql.init
                  (sample_body "a" "b") (js "a") (js "b") eq_refl eq_refl)).
Defined.

(** C1 fails as stated: a name of 95 characters after trimming is rejected
    with "Name must be 100 characters or less" by both servers. *)
Lemma trimmed_name_rejected_counterexample :
  length (trim padded_name) = 95%nat /\
  length padded_name = 105%nat /\
  Mem.handle Mem.init (post_item (JsonText (JObj [(js "name", JStr padded_name);
                                                   (js "description", JStr (js "x"))]))) =
    (validation_failed_response ["Name must be 100 characters or less"], Mem.init) /\
  Sql.handle Sql.init (post_item (JsonText (JObj [(js "name", JStr padded_name);
                                                   (js "description", JStr (js "x"))]))) =
    (validation_failed_response ["Name must be 100 characters or less"], Sql.init).
Proof. repeat split; vm_compute; reflexivity. Qed.

(** C2 (amended).  On GET, PUT and DELETE /items/..., every id segment on
    which [parseInt] yields NaN (no digit after optional white space, sign
    and "0x" prefix, e.g. "abc" or "") is answered 400 "Invalid item ID"
    by both servers, whatever the store holds, and the store is unchanged. *)
Theorem nan_id_rejected (m path : string) (b : req_body) (s : Mem.state) (q : Sql.state) :
  In m ["GET"; "PUT"; "DELETE"] ->
  starts_with_items path = true ->
  parse_id path = None ->
  Mem.handle s (mkRequest m path b) = (invalid_id_response, s) /\
  Sql.handle q (mkRequest m path b) = (invalid_id_response, q).
Proof. apply nan_id_routes. Qed.

Lemma nan_id_rejected_witness :
  parse_id "/items/abc" = None /\
  Mem.handle Mem.init (mkRequest "DELETE" "/items/abc" NoBody) =
    (invalid_id_response, Mem.init).
Proof.
  split; [reflexivity|].
  exact (proj1 (nan_id_rejected "DELETE" "/items/abc" NoBody Mem.init Sql.init
                  (or_intror (or_intror (or_introl eq_refl))) eq_refl eq_refl)).
Defined.

(** C2 fails as stated: "12abc" is read by [parseInt] as 12, so the id
    route looks the item up and answers 404 (200 if item 12 exists). *)
Lemma numeric_prefix_id_counterexample :
  parse_id "/items/12abc" = Some 12 /\
  Mem.handle Mem.init (get_one "12abc") = (item_not_found_response, Mem.init) /\
  Sql.handle Sql.init (get_one "12abc") = (item_not_found_response, Sql.init).
Proof. repeat split; vm_compute; reflexivity. Qed.

(** C8.  PUT /items/:id with an id that parses but names no stored item is
    answered 404 "Item not found" by both servers whatever the body (empty,
    not JSON, or failing validation), and the store is unchanged. *)
Theorem put_missing_item_not_found (path : string) (n : Z) (b : req_body)
    (s : Mem.state) (q : Sql.state) :
  starts_with_items path = true ->
  parse_id path = Some n ->
  (find (has_id n) (Mem.items s) = None ->
   Mem.handle s (mkRequest "PUT" path b) = (item_not_found_response, s)) /\
  (Sql.select_by_id q n = None ->
   Sql.handle q (mkRequest "PUT" path b) = (item_not_found_response, q)).
Proof.
  intros Hp Hid. split; intros Hf;
    unfold Mem.handle, Sql.handle; reduce_handler; rewrite Hp, Hid, Hf; reflexivity.
Qed.

Lemma put_missing_item_not_found_witness :
  parse_id "/items/999" = Some 999 /\
  Mem.handle Mem.init (mkRequest "PUT" "/items/999" Malformed) =
    (item_not_found_response, Mem.init).
Proof.
  split; [vm_compute; reflexivity|].
  exact (proj1 (put_missing_item_not_found "/items/999" 999 Malformed Mem.init Sql.init
                  eq_refl ltac:(vm_compute; reflexivity)) eq_refl).
Defined.

(** C9.  For GET, PUT and DELETE, a path "/items/<seg>/<rest>" (with no '/'
    in [seg]) is handled exactly as "/items/<seg>" by both servers, and
    "/items/" is answered 400 "Invalid item ID", not 404 "Not found". *)
Theorem id_route_reads_segment_two (m seg rest : string) (b : req_body)
    (s : Mem.state) (q : Sql.state) :
  In m ["GET"; "PUT"; "DELETE"] ->
  ~ In "/"%char (list_ascii_of_string seg) ->
  Mem.handle s (mkRequest m ("/items/" ++ seg ++ "/" ++ rest) b) =
    Mem.handle s (mkRequest m ("/items/" ++ seg) b) /\
  Sql.handle q (mkRequest m ("/items/" ++ seg ++ "/" ++ rest) b) =
    Sql.handle q (mkRequest m ("/items/" ++ seg) b) /\
  Mem.handle s (mkRequest m "/items/" b) = (invalid_id_response, s) /\
  Sql.handle q (mkRequest m "/items/" b) = (invalid_id_response, q).
Proof.
  intros Hm Hseg.
  assert (Hid : parse_id ("/items/" ++ seg ++ "/" ++ rest) = parse_id ("/items/" ++ seg)).
  { rewrite !parse_id_items. simpl append.
    rewrite (split_sep_app _ _ _ Hseg), (split_no_sep _ _ Hseg). reflexivity. }
  assert (Hl : forall r, String.eqb ("/items/" ++ r) "/items" = false)
    by (intros r; apply starts_with_items_not_list, starts_with_items_app).
  split; [|split; [|split]].
  - apply Mem_handle_path; [now rewrite !Hl | now rewrite !starts_with_items_app | exact Hid].
  - apply Sql_handle_path; [now rewrite !Hl | now rewrite !starts_with_items_app | exact Hid].
  - exact (proj1 (nan_id_routes m "/items/" b s q Hm eq_refl eq_refl)).
  - exact (proj2 (nan_id_routes m "/items/" b s q Hm eq_refl eq_refl)).
Qed.

Lemma id_route_reads_segment_two_witness :
  In "GET" ["GET"; "PUT"; "DELETE"] /\ ~ In "/"%char (list_ascii_of_string "1") /\
  Mem.handle Mem.init (mkRequest "GET" ("/items/" ++ "1" ++ "/" ++ "anything") NoBody) =
    Mem.handle Mem.init (mkRequest "GET" ("/items/" ++ "1") NoBody).
Proof.
  assert (H1 : In "GET" ["GET"; "PUT"; "DELETE"]) by (left; reflexivity).
  assert (H2 : ~ In "/"%char (list_ascii_of_string "1")) by (simpl; intuition discriminate).
  split; [exact H1|]. split; [exact H2|].
  exact (proj1 (id_route_reads_segment_two "GET" "1" "anything" NoBody Mem.init Sql.init H1 H2)).
Defined.

(** C10.  An empty body, or a JSON body encoding null, false, 0 or "", is
    answered 400 "Validation failed" with the single detail "Request body
    is required" by POST /items and by PUT on an existing id, in both
    servers, and the store is unchanged. *)
Theorem falsy_body_required (b : req_body) (s : Mem.state) (q : Sql.state) :
  b = NoBody \/ b = JsonText JNull \/ b = JsonText (JBool false) \/
  b = JsonText (JNum 0) \/ b = JsonText (JStr []) ->
  let r := validation_failed_response ["Request body is required"] in
  Mem.handle s (post_item b) = (r, s) /\
  Sql.handle q (post_item b) = (r, q) /\
  (forall path n,
     starts_with_items path = true -> parse_id path = Some n ->
     find (has_id n) (Mem.items s) <> None ->
     Mem.handle s (mkRequest "PUT" path b) = (r, s)) /\
  (forall path n,
     starts_with_items path = true -> parse_id path = Some n ->
     Sql.select_by_id q n <> None ->
     Sql.handle q (mkRequest "PUT" path b) = (r, q)).
Proof.
  intros Hb r.
  split; [|split; [|split]]; try intros path n Hp Hid Hf;
    unfold Mem.handle, Sql.handle; reduce_handler; rewrite ?Hp, ?Hid;
    try (destruct (find (has_id n) (Mem.items s)); [|contradiction]);
    try (destruct (Sql.select_by_id q n); [|contradiction]);
    destruct Hb as [ -> | [ -> | [ -> | [ -> | -> ]]]]; reflexivity.
Qed.

Lemma falsy_body_required_witness :
  Mem.handle Mem.init (post_item (JsonText JNull)) =
    (validation_failed_response ["Request body is required"], Mem.init).
Proof.
  exact (proj1 (falsy_body_required (JsonText JNull) Mem.init Sql.init
                  (or_intror (or_introl eq_refl)))).
Defined.

(** * Numbers *)

Lemma pow53_lt_pow1024 : 2 ^ 53 < 2 ^ 1024.
Proof. apply Z.pow_lt_mono_r; lia. Qed.

(** Integers up to 2^53 in absolute value are Numbers as they are. *)
Lemma to_number_exact z : Z.abs z <= 2 ^ 53 -> to_number z = z.
Proof.
  intros H. pose proof pow53_lt_pow1024. unfold to_number, round_double. cbv zeta.
  destruct (Z.leb_spec (Z.abs z) (2 ^ 53)); [|lia].
  destruct (Z.leb_spec (2 ^ 1024) (Z.abs z)); [lia | reflexivity].
Qed.

Lemma to_number_2p53_succ : to_number (2 ^ 53 + 1) = 2 ^ 53.
Proof. vm_compute. reflexivity. Qed.

(** [nextId++] from [0 <= x <= 2^53]. *)
Lemma next_id_step x : 0 <= x <= 2 ^ 53 -> to_number (x + 1) = Z.min (x + 1) (2 ^ 53).
Proof.
  intros H. destruct (Z.eq_dec x (2 ^ 53)) as [->|Hne].
  - rewrite to_number_2p53_succ. lia.
  - rewrite to_number_exact by lia. lia.
Qed.

(** * Lists of items *)

Lemma StronglySorted_snoc {A} (R : A -> A -> Prop) l x :
  StronglySorted R l -> Forall (fun y => R y x) l -> StronglySorted R (l ++ [x]).
Proof.
  induction l as [|a l IH]; simpl; intros Hs Hf.
  - constructor; constructor.
  - inversion Hs; subst. inversion Hf; subst. constructor; [auto|].
    apply Forall_app. split; [assumption|]. constructor; [assumption | constructor].
Qed.

Lemma StronglySorted_lt_NoDup l : StronglySorted Z.lt l -> NoDup l.
Proof.
  induction 1 as [|a l _ IH Hf]; constructor; [|exact IH].
  intros Hin. rewrite Forall_forall in Hf. specialize (Hf a Hin). lia.
Qed.

Lemma StronglySorted_lt_le l : StronglySorted Z.lt l -> StronglySorted Z.le l.
Proof.
  induction 1 as [|a l _ IH Hf]; constructor; [exact IH|].
  eapply Forall_impl; [|exact Hf]. simpl. lia.
Qed.

Lemma map_id_replace_first n it l :
  id it = n -> map id (Mem.replace_first n it l) = map id l.
Proof.
  intros Hit. induction l as [|x l IH]; simpl; [reflexivity|].
  unfold has_id. destruct (id x =? n) eqn:E; simpl.
  - apply Z.eqb_eq in E. congruence.
  - now rewrite IH.
Qed.

Lemma in_remove_first n x l : In x (Mem.remove_first n l) -> In x l.
Proof.
  induction l as [|y l IH]; simpl; [tauto|].
  destruct (has_id n y); simpl; intuition.
Qed.

Lemma remove_first_sorted (R : Z -> Z -> Prop) n l :
  StronglySorted R (map id l) -> StronglySorted R (map id (Mem.remove_first n l)).
Proof.
  induction l as [|y l IH]; simpl; intros Hs; [constructor|].
  inversion Hs; subst. destruct (has_id n y); [assumption|].
  simpl. constructor; [auto|].
  rewrite Forall_forall in *. intros k Hk. apply in_map_iff in Hk.
  destruct Hk as (x & <- & Hx). apply H2, in_map, (in_remove_first n), Hx.
Qed.

Lemma Forall_ids_remove_first (P : Z -> Prop) n l :
  Forall P (map id l) -> Forall P (map id (Mem.remove_first n l)).
Proof.
  rewrite !Forall_forall. intros H k Hk. apply in_map_iff in Hk.
  destruct Hk as (x & <- & Hx). apply H, in_map, (in_remove_first n), Hx.
Qed.

Lemma filter_sorted (R : Z -> Z -> Prop) (f : item -> bool) l :
  StronglySorted R (map id l) -> StronglySorted R (map id (filter f l)).
Proof.
  induction l as [|y l IH]; simpl; intros Hs; [constructor|].
  inversion Hs as [|? ? Hs' Hf]; subst. destruct (f y); simpl; [|auto].
  constructor; [auto|]. rewrite Forall_forall in *. intros k Hk.
  apply in_map_iff in Hk. destruct Hk as (x & <- & Hx).
  apply filter_In in Hx as [Hx _]. apply Hf, in_map, Hx.
Qed.

Lemma Forall_ids_filter (P : Z -> Prop) (f : item -> bool) l :
  Forall P (map id l) -> Forall P (map id (filter f l)).
Proof.
  rewrite !Forall_forall. intros H k Hk. apply in_map_iff in Hk.
  destruct Hk as (x & <- & Hx). apply filter_In in Hx as [Hx _]. apply H, in_map, Hx.
Qed.

Lemma find_absent k l :
  Forall (fun j => j <> k) (map id l) -> find (has_id k) l = None.
Proof.
  induction l as [|x l IH]; simpl; intros Hf; [reflexivity|].
  inversion Hf; subst. replace (has_id k x) with false by (symmetry; apply Z.eqb_neq; exact H1).
  auto.
Qed.

Lemma find_app_absent k l x post :
  Forall (fun j => j <> k) (map id l) -> id x = k -> find (has_id k) (l ++ x :: post)%list = Some x.
Proof.
  induction l as [|y l IH]; simpl; intros Hf Hx.
  - replace (has_id k x) with true by (symmetry; apply Z.eqb_eq; exact Hx). reflexivity.
  - inversion Hf; subst. replace (has_id (id x) y) with false
      by (symmetry; apply Z.eqb_neq; exact H1). auto.
Qed.




Lemma Forall_replace_first (P : item -> Prop) n y l :
  P y -> Forall P l -> Forall P (Mem.replace_first n y l).
Proof.
  intros Hy. induction 1 as [|x l Hx Hl IH]; simpl; [constructor|].
  destruct (has_id n x); constructor; assumption.
Qed.

Lemma Forall_remove_first (P : item -> Prop) n l :
  Forall P l -> Forall P (Mem.remove_first n l).
Proof.
  induction 1 as [|x l Hx Hl IH]; simpl; [constructor|].
  destruct (has_id n x); [assumption | constructor; assumption].
Qed.

Lemma zseq_bounds start k :
  Forall (fun j => start <= j < start + Z.of_nat k) (zseq start k).
Proof.
  revert start. induction k as [|k IH]; intros start; simpl; [constructor|].
  constructor; [lia|]. eapply Forall_impl; [|apply IH]. simpl. lia.
Qed.

Lemma zseq_snoc start k : zseq start (S k) = (zseq start k ++ [start + Z.of_nat k])%list.
Proof.
  revert start. induction k as [|k IH]; intros start.
  - simpl. f_equal. f_equal. lia.
  - change (zseq start (S (S k))) with (start :: zseq (start + 1) (S k)).
    rewrite IH. simpl. do 3 f_equal. lia.
Qed.

(** * Running handlers *)

Lemma run_cons {state} (step : state -> request -> response * state) s r rs :
  run step s (r :: rs) =
    (fst (step s r) :: fst (run step (snd (step s r)) rs),
     snd (run step (snd (step s r)) rs)).
Proof. simpl. destruct (step s r) as [resp s1]. simpl. destruct (run step s1 rs). reflexivity. Qed.

Lemma run_app {state} (step : state -> request -> response * state) s rs1 rs2 :
  run step s (rs1 ++ rs2) =
    (fst (run step s rs1) ++ fst (run step (snd (run step s rs1)) rs2),
     snd (run step (snd (run step s rs1)) rs2))%list.
Proof.
  revert s. induction rs1 as [|r rs1 IH]; intros s.
  - simpl. destruct (run step s rs2); reflexivity.
  - change ((r :: rs1) ++ rs2)%list with (r :: (rs1 ++ rs2))%list.
    rewrite !run_cons, IH. reflexivity.
Qed.

Lemma run_reachable {state} (step : state -> request -> response * state) init s rs :
  reachable step init s -> reachable step init (snd (run step s rs)).
Proof.
  revert s. induction rs as [|r rs IH]; intros s Hs; [exact Hs|].
  rewrite run_cons. cbn [snd]. apply IH. constructor. exact Hs.
Qed.

Lemma created_ids_cons r rs :
  created_ids (r :: rs) =
    match created_id r with Some k => k :: created_ids rs | None => created_ids rs end.
Proof. simpl. destruct (created_id r); reflexivity. Qed.

Lemma created_ids_app l1 l2 : created_ids (l1 ++ l2) = (created_ids l1 ++ created_ids l2)%list.
Proof. unfold created_ids. apply flat_map_app. Qed.

(** * The in-memory store *)

Module MemInv.

Lemma inv_init : store_inv Mem.init.
Proof. unfold store_inv; simpl; repeat split; [constructor | constructor | lia | lia]. Qed.

Lemma ok_init : mem_ok Mem.init.
Proof. unfold mem_ok; simpl; repeat split; [constructor | constructor | lia | lia]. Qed.

Lemma inv_ok s : store_inv s -> mem_ok s.
Proof.
  intros (Hs & Hb & Hn). split; [now apply StronglySorted_lt_le|]. split; [|exact Hn].
  eapply Forall_impl; [|exact Hb]. simpl. lia.
Qed.

(** Every step of the in-memory handler either creates the item
    [nextId] at the end of the list and runs [nextId++], or creates nothing
    and keeps the state, updates an item in place, or removes one. *)
Lemma handle_cases s r :
  (exists nm d, created_id (fst (Mem.handle s r)) = Some (Mem.nextId s) /\
     snd (Mem.handle s r) =
       Mem.mkState (Mem.items s ++ [mkItem (Mem.nextId s) nm d])
                   (to_number (Mem.nextId s + 1))) \/
  (created_id (fst (Mem.handle s r)) = None /\
   (snd (Mem.handle s r) = s \/
    (exists n nm d, find (has_id n) (Mem.items s) <> None /\
       snd (Mem.handle s r) =
         Mem.mkState (Mem.replace_first n (mkItem n nm d) (Mem.items s)) (Mem.nextId s)) \/
    (exists n, snd (Mem.handle s r) =
                 Mem.mkState (Mem.remove_first n (Mem.items s)) (Mem.nextId s)))).
Proof.
  destruct r as [m p b]. unfold Mem.handle. cbn [method pathname body].
  split_handler; try (right; split; [reflexivity | left; reflexivity]).
  - left. do 2 eexists. split; reflexivity.
  - right. split; [reflexivity|]. right. left.
    match goal with H : find (has_id ?n) _ = Some _ |- _ => exists n end.
    do 2 eexists. split; [congruence | reflexivity].
  - right. split; [reflexivity|]. right. right. eexists. reflexivity.
Qed.

Lemma ok_step s r : mem_ok s -> mem_ok (snd (Mem.handle s r)).
Proof.
  intros (Hs & Hb & Hn).
  destruct (handle_cases s r)
    as [(nm & d & _ & ->) | (_ & [-> | [(n & nm & d & _ & ->) | (n & ->)]])];
    unfold mem_ok; simpl.
  - rewrite next_id_step by lia. rewrite map_app. simpl. split; [|split; [|lia]].
    + apply StronglySorted_snoc; [assumption|].
      eapply Forall_impl; [|exact Hb]. simpl. lia.
    + apply Forall_app. split.
      * eapply Forall_impl; [|exact Hb]. simpl. lia.
      * constructor; [lia | constructor].
  - split; [|split]; assumption.
  - rewrite map_id_replace_first by reflexivity. split; [|split]; assumption.
  - split; [now apply remove_first_sorted|]. split; [|assumption].
    now apply Forall_ids_remove_first.
Qed.

Lemma reachable_ok s : reachable Mem.handle Mem.init s -> mem_ok s.
Proof. induction 1; [apply ok_init | now apply ok_step]. Qed.

(** [nextId] never decreases, and grows by at most one per request. *)
Lemma nextId_step s r :
  mem_ok s ->
  Mem.nextId s <= Mem.nextId (snd (Mem.handle s r)) <= Mem.nextId s + 1.
Proof.
  intros (_ & _ & Hn).
  destruct (handle_cases s r)
    as [(nm & d & _ & ->) | (_ & [-> | [(n & nm & d & _ & ->) | (n & ->)]])];
    simpl; [rewrite next_id_step by lia|..]; lia.
Qed.

(** While [nextId] is below 2^53, every id is exact and the invariant is
    kept. *)
Lemma inv_step s r :
  store_inv s -> Mem.nextId s < 2 ^ 53 -> store_inv (snd (Mem.handle s r)).
Proof.
  intros (Hs & Hb & Hn) Hlt.
  destruct (handle_cases s r)
    as [(nm & d & _ & ->) | (_ & [-> | [(n & nm & d & _ & ->) | (n & ->)]])];
    unfold store_inv; simpl.
  - rewrite to_number_exact by lia. rewrite map_app. simpl. split; [|split; [|lia]].
    + apply StronglySorted_snoc; [assumption|].
      eapply Forall_impl; [|exact Hb]. simpl. lia.
    + apply Forall_app. split.
      * eapply Forall_impl; [|exact Hb]. simpl. lia.
      * constructor; [lia | constructor].
  - split; [|split]; assumption.
  - rewrite map_id_replace_first by reflexivity. split; [|split]; assumption.
  - split; [now apply remove_first_sorted|]. split; [|assumption].
    now apply Forall_ids_remove_first.
Qed.

Lemma reachable_inv s :
  reachable Mem.handle Mem.init s -> Mem.nextId s < 2 ^ 53 -> store_inv s.
Proof.
  induction 1 as [|s r Hr IH]; intros Hlt; [apply inv_init|].
  pose proof (nextId_step s r (reachable_ok s Hr)).
  apply inv_step; [apply IH|]; lia.
Qed.

Lemma run_inv s rs :
  store_inv s -> Mem.nextId s + Z.of_nat (length rs) <= 2 ^ 53 ->
  store_inv (snd (run Mem.handle s rs)) /\
  Mem.nextId s <= Mem.nextId (snd (run Mem.handle s rs)) <= Mem.nextId s + Z.of_nat (length rs).
Proof.
  revert s. induction rs as [|r rs IH]; intros s Hs Hlen.
  - simpl. split; [exact Hs | lia].
  - rewrite run_cons. cbn [snd length] in *.
    pose proof (nextId_step s r (inv_ok s Hs)) as Hn.
    destruct (IH (snd (Mem.handle s r))) as [H1 H2];
      [apply inv_step; [exact Hs | lia] | lia |].
    split; [exact H1 | lia].
Qed.

Lemma run_reachable_inv rs :
  Z.of_nat (length rs) < 2 ^ 53 ->
  store_inv (snd (run Mem.handle Mem.init rs)) /\
  Mem.nextId (snd (run Mem.handle Mem.init rs)) <= 1 + Z.of_nat (length rs).
Proof.
  intros H. destruct (run_inv Mem.init rs inv_init) as [H1 H2];
    [cbn [Mem.nextId Mem.init]; lia|].
  split; [exact H1 | cbn [Mem.nextId Mem.init] in H2; lia].
Qed.

End MemInv.

(** Ids created from a state are increasing and not below its [nextId]. *)
Lemma created_ids_from s rs :
  store_inv s -> Mem.nextId s + Z.of_nat (length rs) <= 2 ^ 53 ->
  StronglySorted Z.lt (created_ids (fst (run Mem.handle s rs))) /\
  Forall (fun k => Mem.nextId s <= k) (created_ids (fst (run Mem.handle s rs))).
Proof.
  revert s. induction rs as [|r rs IH]; intros s Hs Hlen; [split; constructor|].
  cbn [length] in Hlen.
  rewrite run_cons. simpl fst. rewrite created_ids_cons.
  pose proof (MemInv.nextId_step s r (MemInv.inv_ok s Hs)) as Hn.
  assert (Hlt : Mem.nextId s < 2 ^ 53) by lia.
  pose proof Hs as (_ & _ & Hrange).
  destruct (IH _ (MemInv.inv_step s r Hs Hlt)) as [Hsort Hge]; [lia|].
  destruct (MemInv.handle_cases s r)
    as [(nm & d & Hc & Hs') | (Hc & _)]; rewrite Hc.
  - rewrite Hs' in Hsort, Hge, Hn |- *. cbn [Mem.nextId Mem.items] in Hge, Hn.
    assert (Hexact : to_number (Mem.nextId s + 1) = Mem.nextId s + 1)
      by (apply to_number_exact; lia).
    rewrite Hexact in *. split.
    + constructor; [exact Hsort|]. eapply Forall_impl; [|exact Hge]. simpl. lia.
    + constructor; [lia|]. eapply Forall_impl; [|exact Hge]. simpl. lia.
  - split; [exact Hsort|]. eapply Forall_impl; [|exact Hge]. simpl. lia.
Qed.

(** Ids created from a state lie below the [nextId] reached at the end. *)
Lemma created_below s rs :
  store_inv s -> Mem.nextId s + Z.of_nat (length rs) <= 2 ^ 53 ->
  Forall (fun k => k < Mem.nextId (snd (run Mem.handle s rs)))
         (created_ids (fst (run Mem.handle s rs))).
Proof.
  revert s. induction rs as [|r rs IH]; intros s Hs Hlen; [constructor|].
  cbn [length] in Hlen.
  rewrite run_cons. cbn [fst snd]. rewrite created_ids_cons.
  assert (Hlt : Mem.nextId s < 2 ^ 53) by lia.
  pose proof (MemInv.inv_step s r Hs Hlt) as Hs1.
  pose proof Hs as (_ & _ & Hrange).
  specialize (IH (snd (Mem.handle s r)) Hs1).
  pose proof (MemInv.nextId_step s r (MemInv.inv_ok s Hs)) as Hn.
  destruct (MemInv.run_inv _ rs Hs1) as [_ Hle]; [lia|].
  destruct (MemInv.handle_cases s r) as [(nm & d & Hc & Hs') | (Hc & _)]; rewrite Hc.
  - constructor; [|apply IH; lia]. rewrite Hs' in Hle |- *. cbn [Mem.nextId] in Hle |- *.
    rewrite (to_number_exact (Mem.nextId s + 1)) in * by lia. lia.
  - apply IH; lia.
Qed.

Lemma created_id_step s r k :
  created_id (fst (Mem.handle s r)) = Some k -> k = Mem.nextId s.
Proof.
  destruct (MemInv.handle_cases s r) as [(nm & d & Hc & _) | (Hc & _)]; rewrite Hc;
    congruence.
Qed.

(** The first id created from a state is its [nextId]. *)
Lemma first_created s rs k :
  hd_error (created_ids (fst (run Mem.handle s rs))) = Some k -> k = Mem.nextId s.
Proof.
  revert s. induction rs as [|r rs IH]; intros s; [discriminate|].
  rewrite run_cons. cbn [fst]. rewrite created_ids_cons.
  destruct (MemInv.handle_cases s r)
    as [(nm & d & Hc & _) | (Hc & [Hs' | [(n & nm & d & _ & Hs') | (n & Hs')]])];
    rewrite Hc; [simpl; congruence| ..];
    intros Hk; apply IH in Hk; rewrite Hs' in Hk; exact Hk.
Qed.

(** * The SQLite store *)

Module SqlInv.

Lemma sql_ok_init : sql_ok Sql.init.
Proof. unfold sql_ok; simpl; repeat split; [constructor | constructor | lia]. Qed.

Lemma max_rowid_le l N :
  0 <= N -> Forall (fun k => 1 <= k <= N) (map id l) -> Sql.max_rowid l <= N.
Proof.
  intros HN. induction l as [|x l IH]; simpl; intros Hf; [lia|].
  inversion Hf; subst. specialize (IH H2). lia.
Qed.

(** AUTOINCREMENT takes [sqlite_sequence + 1]. *)
Lemma insert_rowid q :
  sql_ok q -> Z.max (Sql.seq q) (Sql.max_rowid (Sql.rows q)) + 1 = Sql.seq q + 1.
Proof. intros (_ & Hb & Hn). pose proof (max_rowid_le _ _ Hn Hb). lia. Qed.

Lemma insert_ok q nm d :
  sql_ok q -> Sql.insert q nm d =
    (to_number (Sql.seq q + 1),
     Sql.mkState (Sql.rows q ++ [mkItem (Sql.seq q + 1) (sqlite_text nm) (sqlite_text d)])
                 (Sql.seq q + 1)).
Proof. intros Hq. unfold Sql.insert. rewrite (insert_rowid q Hq). reflexivity. Qed.

Lemma map_id_update n nm d l :
  map id (map (fun it => if has_id n it then mkItem (id it) nm d else it) l) = map id l.
Proof.
  induction l as [|x l IH]; simpl; [reflexivity|].
  destruct (has_id n x); simpl; rewrite IH; reflexivity.
Qed.

(** Every step of the SQLite handler either inserts a row, or creates
    nothing and keeps the table, updates rows or deletes rows. *)
Lemma sql_handle_cases q r :
  (exists nm d, created_id (fst (Sql.handle q r)) = Some (fst (Sql.insert q nm d)) /\
     snd (Sql.handle q r) = snd (Sql.insert q nm d)) \/
  (created_id (fst (Sql.handle q r)) = None /\
   (snd (Sql.handle q r) = q \/
    (exists n nm d, snd (Sql.handle q r) = Sql.update q n nm d) \/
    (exists n, snd (Sql.handle q r) = Sql.delete q n))).
Proof.
  destruct r as [m p b]. unfold Sql.handle. cbn [method pathname body].
  split_handler; try (right; split; [reflexivity | left; reflexivity]).
  - left. match goal with H : Sql.insert q ?a ?c = _ |- _ =>
      exists a, c; rewrite H; split; reflexivity end.
  - right. split; [reflexivity|]. right. left. do 3 eexists. reflexivity.
  - right. split; [reflexivity|]. right. right. eexists. reflexivity.
Qed.

Lemma sql_ok_step q r : sql_ok q -> sql_ok (snd (Sql.handle q r)).
Proof.
  intros Hq. pose proof Hq as (Hs & Hb & Hn).
  destruct (sql_handle_cases q r)
    as [(nm & d & _ & ->) | (_ & [-> | [(n & nm & d & ->) | (n & ->)]])].
  - rewrite (insert_ok q nm d Hq). unfold sql_ok. simpl.
    rewrite map_app. simpl. split; [|split; [|lia]].
    + apply StronglySorted_snoc; [assumption|].
      eapply Forall_impl; [|exact Hb]. simpl. lia.
    + apply Forall_app. split.
      * eapply Forall_impl; [|exact Hb]. simpl. lia.
      * constructor; [lia | constructor].
  - exact Hq.
  - unfold sql_ok, Sql.update. simpl. rewrite map_id_update. split; [|split]; assumption.
  - unfold sql_ok, Sql.delete. simpl. split; [now apply filter_sorted|].
    split; [now apply Forall_ids_filter | assumption].
Qed.

Lemma sql_reachable_ok q : reachable Sql.handle Sql.init q -> sql_ok q.
Proof. induction 1; [apply sql_ok_init | now apply sql_ok_step]. Qed.

Lemma seq_step q r :
  sql_ok q -> Sql.seq q <= Sql.seq (snd (Sql.handle q r)) <= Sql.seq q + 1.
Proof.
  intros Hq.
  destruct (sql_handle_cases q r)
    as [(nm & d & _ & ->) | (_ & [-> | [(n & nm & d & ->) | (n & ->)]])];
    [rewrite (insert_ok q nm d Hq)|..]; simpl; lia.
Qed.

Lemma select_all_sorted l :
  StronglySorted Z.lt (map id l) -> fold_right Sql.insert_by_id [] l = l.
Proof.
  induction l as [|x l IH]; intros Hs; [reflexivity|].
  inversion Hs as [|? ? Hs' Hf]; subst. simpl. rewrite (IH Hs').
  destruct l as [|y l]; [reflexivity|]. simpl in Hf. inversion Hf; subst.
  simpl. replace (id x <=? id y) with true by (symmetry; apply Z.leb_le; lia).
  reflexivity.
Qed.

Lemma read_exact it : 1 <= id it <= 2 ^ 53 -> Sql.read it = it.
Proof. destruct it as [k nm d]. simpl. intros H. unfold Sql.read. simpl. rewrite to_number_exact by lia. reflexivity. Qed.

Lemma map_read_exact l N :
  N <= 2 ^ 53 -> Forall (fun k => 1 <= k <= N) (map id l) -> map Sql.read l = l.
Proof.
  intros HN. induction l as [|x l IH]; simpl; intros Hf; [reflexivity|].
  inversion Hf; subst. rewrite read_exact by lia. f_equal. auto.
Qed.

(** [ORDER BY id] lists the rows in insertion order. *)
Lemma select_all_rows q : sql_ok q -> Sql.select_all q = map Sql.read (Sql.rows q).
Proof. intros (Hs & _). unfold Sql.select_all. rewrite (select_all_sorted _ Hs). reflexivity. Qed.

(** While every rowid is a double, rows are read as they are stored. *)
Lemma select_all_exact q : sql_ok q -> Sql.seq q <= 2 ^ 53 -> Sql.select_all q = Sql.rows q.
Proof.
  intros Hq Hn. rewrite (select_all_rows q Hq). apply (map_read_exact _ (Sql.seq q) Hn), Hq.
Qed.

Lemma select_by_id_exact q n :
  sql_ok q -> Sql.seq q <= 2 ^ 53 -> Sql.select_by_id q n = find (has_id n) (Sql.rows q).
Proof.
  intros (_ & Hb & _) Hn. unfold Sql.select_by_id.
  destruct (find (has_id n) (Sql.rows q)) as [it|] eqn:E; [|reflexivity]. simpl.
  apply find_some in E as [Hin _]. rewrite Forall_forall in Hb.
  specialize (Hb (id it) (in_map id _ _ Hin)). rewrite read_exact by lia. reflexivity.
Qed.

Lemma select_by_id_absent q n :
  Forall (fun j => j <> n) (map id (Sql.rows q)) -> Sql.select_by_id q n = None.
Proof. intros H. unfold Sql.select_by_id. rewrite find_absent by exact H. reflexivity. Qed.



End SqlInv.


(** * [String.prototype.trim] *)

Lemma trim_start_idem s : trim_start (trim_start s) = trim_start s.
Proof.
  induction s as [|c t IH]; [reflexivity|]. simpl.
  destruct (is_ws c) eqn:E; [exact IH | simpl; rewrite E; reflexivity].
Qed.

Lemma trim_end_idem s : trim_end (trim_end s) = trim_end s.
Proof.
  induction s as [|c t IH]; [reflexivity|]. simpl.
  destruct (trim_end t) as [|x t'] eqn:E.
  - destruct (is_ws c) eqn:Ec; [reflexivity|]. simpl. rewrite Ec. reflexivity.
  - change (trim_end (c :: x :: t'))
      with (match trim_end (x :: t') with [] => if is_ws c then [] else [c] | t0 => c :: t0 end).
    rewrite IH. reflexivity.
Qed.

Lemma trim_end_head c t :
  trim_end (c :: t) = [] \/ exists t', trim_end (c :: t) = c :: t'.
Proof.
  simpl. destruct (trim_end t) as [|x t'].
  - destruct (is_ws c); [left | right; exists []]; reflexivity.
  - right. eexists. reflexivity.
Qed.

Lemma trim_start_head s :
  trim_start s = [] \/ exists c t, trim_start s = c :: t /\ is_ws c = false.
Proof.
  induction s as [|c t IH]; [left; reflexivity|]. simpl.
  destruct (is_ws c) eqn:E; [exact IH | right; eauto].
Qed.

Lemma trim_start_trim_end s : trim_start (trim_end (trim_start s)) = trim_end (trim_start s).
Proof.
  destruct (trim_start_head s) as [-> | (c & t & -> & Hc)]; [reflexivity|].
  destruct (trim_end_head c t) as [-> | (t' & ->)]; [reflexivity|].
  simpl. rewrite Hc. reflexivity.
Qed.

Lemma trim_start_split s :
  exists pre, s = (pre ++ trim_start s)%list /\ forallb is_ws pre = true.
Proof.
  induction s as [|c t IH]; [exists []; split; reflexivity|]. simpl.
  destruct (is_ws c) eqn:E.
  - destruct IH as (pre & Hpre & Hws). exists (c :: pre). simpl.
    rewrite E, Hws. split; [rewrite <- Hpre|]; reflexivity.
  - exists []; split; reflexivity.
Qed.

Lemma trim_end_split s :
  exists post, s = (trim_end s ++ post)%list /\ forallb is_ws post = true.
Proof.
  induction s as [|c t IH]; [exists []; split; reflexivity|].
  destruct IH as (post & Hpost & Hws). simpl.
  destruct (trim_end t) as [|x t'] eqn:Et.
  - simpl in Hpost. subst t.
    destruct (is_ws c) eqn:E.
    + exists (c :: post). simpl. rewrite E. split; [reflexivity | exact Hws].
    + exists post. split; [reflexivity | exact Hws].
  - exists post. rewrite Hpost at 1. split; [reflexivity | exact Hws].
Qed.

Lemma trim_end_empty s : trim_end s = [] <-> forallb is_ws s = true.
Proof.
  induction s as [|c t IH]; [split; reflexivity|]. simpl.
  destruct (trim_end t) as [|x t'] eqn:Et.
  - rewrite (proj1 IH eq_refl). rewrite andb_true_r.
    destruct (is_ws c); split; intros H; first [reflexivity | discriminate].
  - assert (Hf : forallb is_ws t = false).
    { destruct (forallb is_ws t); [|reflexivity]. discriminate (proj2 IH eq_refl). }
    rewrite Hf, andb_false_r. split; intros H; discriminate.
Qed.

Lemma forallb_ws_app (a b : jsstring) :
  forallb is_ws (a ++ b)%list = forallb is_ws a && forallb is_ws b.
Proof. apply forallb_app. Qed.


Lemma trim_idem s : trim (trim s) = trim s.
Proof. unfold trim. rewrite trim_start_trim_end. apply trim_end_idem. Qed.


(** * Text through SQLite *)

Lemma list_ind2 (P : jsstring -> Prop) :
  P [] -> (forall u, P [u]) ->
  (forall u v t, P t -> P (v :: t) -> P (u :: v :: t)) ->
  forall l, P l.
Proof.
  intros H0 H1 H2 l. assert (H : P l /\ forall u, P (u :: l)).
  { induction l as [|v t [IHt IHvt]]; [split; auto|].
    split; [apply IHvt|]. intros u. apply H2; [exact IHt | apply IHvt]. }
  apply H.
Qed.

Lemma ws_range u : is_ws u = true -> u <= 12288 \/ u = 65279.
Proof.
  unfold is_ws. intros H.
  repeat (apply orb_true_iff in H; destruct H as [H | H]);
    rewrite ?andb_true_iff, ?Z.leb_le, ?Z.eqb_eq in H; lia.
Qed.

Lemma high_not_ws u : is_high_surrogate u = true -> is_ws u = false.
Proof.
  unfold is_high_surrogate. rewrite andb_true_iff, !Z.leb_le. intros H.
  destruct (is_ws u) eqn:E; [|reflexivity]. apply ws_range in E. lia.
Qed.

Lemma low_not_ws u : is_low_surrogate u = true -> is_ws u = false.
Proof.
  unfold is_low_surrogate. rewrite andb_true_iff, !Z.leb_le. intros H.
  destruct (is_ws u) eqn:E; [|reflexivity]. apply ws_range in E. lia.
Qed.

Lemma ws_not_low u : is_ws u = true -> is_low_surrogate u = false.
Proof.
  intros H. destruct (is_low_surrogate u) eqn:E; [|reflexivity].
  rewrite (low_not_ws u E) in H. discriminate.
Qed.

Lemma ws_not_high u : is_ws u = true -> is_high_surrogate u = false.
Proof.
  intros H. destruct (is_high_surrogate u) eqn:E; [|reflexivity].
  rewrite (high_not_ws u E) in H. discriminate.
Qed.

Lemma sqlite_text_cons2 u v t :
  sqlite_text (u :: v :: t) =
    if is_high_surrogate u then
      (if is_low_surrogate v then u :: v :: sqlite_text t else 65533 :: sqlite_text (v :: t))
    else if is_low_surrogate u then 65533 :: sqlite_text (v :: t)
    else u :: sqlite_text (v :: t).
Proof. reflexivity. Qed.

Lemma well_formed_cons2 u v t :
  well_formed (u :: v :: t) =
    if is_high_surrogate u then is_low_surrogate v && well_formed t
    else negb (is_low_surrogate u) && well_formed (v :: t).
Proof. reflexivity. Qed.

Lemma well_formed_fffd x : well_formed (65533 :: x) = well_formed x.
Proof. reflexivity. Qed.

Lemma well_formed_plain u x :
  is_high_surrogate u = false -> well_formed (u :: x) = negb (is_low_surrogate u) && well_formed x.
Proof. intros H. cbn [well_formed]. rewrite H. reflexivity. Qed.

Lemma is_ws_fffd : is_ws 65533 = false.
Proof. reflexivity. Qed.


Lemma sqlite_text_wf s : well_formed (sqlite_text s) = true.
Proof.
  induction s as [|u|u v t IHt IHvt] using list_ind2; [reflexivity| |].
  - simpl. destruct (is_high_surrogate u) eqn:Eh; [reflexivity|].
    destruct (is_low_surrogate u) eqn:El; [reflexivity|].
    rewrite well_formed_plain by exact Eh. rewrite El. reflexivity.
  - rewrite sqlite_text_cons2.
    destruct (is_high_surrogate u) eqn:Eh.
    + destruct (is_low_surrogate v) eqn:Ev.
      * rewrite well_formed_cons2, Eh, Ev. exact IHt.
      * rewrite well_formed_fffd. exact IHvt.
    + destruct (is_low_surrogate u) eqn:El.
      * rewrite well_formed_fffd. exact IHvt.
      * rewrite well_formed_plain by exact Eh. rewrite El. exact IHvt.
Qed.

Lemma sqlite_text_fixed s : well_formed s = true -> sqlite_text s = s.
Proof.
  induction s as [|u|u v t IHt IHvt] using list_ind2; [reflexivity| |].
  - simpl. destruct (is_high_surrogate u); [discriminate|].
    destruct (is_low_surrogate u); [discriminate|reflexivity].
  - rewrite sqlite_text_cons2, well_formed_cons2.
    destruct (is_high_surrogate u).
    + destruct (is_low_surrogate v); [|discriminate]. cbn [andb]. intros H. rewrite IHt; auto.
    + destruct (is_low_surrogate u); [discriminate|]. cbn [negb andb]. intros H. rewrite IHvt; auto.
Qed.

Lemma sqlite_text_idem s : sqlite_text (sqlite_text s) = sqlite_text s.
Proof. apply sqlite_text_fixed, sqlite_text_wf. Qed.





Lemma well_formed_app (m post : jsstring) :
  (forall x, In x post -> is_low_surrogate x = false) ->
  well_formed (m ++ post)%list = well_formed m && well_formed post.
Proof.
  intros Hpost.
  induction m as [|u|u v t IHt IHvt] using list_ind2; [reflexivity| |].
  - destruct (is_high_surrogate u) eqn:Eh.
    + destruct post as [|v post']; [simpl; rewrite Eh; reflexivity|].
      cbn [app]. rewrite well_formed_cons2, Eh, (Hpost v (or_introl eq_refl)).
      simpl. rewrite Eh. reflexivity.
    + cbn [app]. rewrite !well_formed_plain by exact Eh. simpl. rewrite andb_true_r. reflexivity.
  - cbn [app] in *. rewrite !well_formed_cons2.
    destruct (is_high_surrogate u).
    + rewrite IHt, andb_assoc. reflexivity.
    + rewrite IHvt, andb_assoc. reflexivity.
Qed.

Lemma well_formed_ws_prefix pre m :
  forallb is_ws pre = true -> well_formed (pre ++ m)%list = well_formed m.
Proof.
  induction pre as [|u pre IH]; [reflexivity|]. intros H. cbn [forallb app] in *.
  apply andb_true_iff in H as [Hu Hpre].
  rewrite well_formed_plain by (apply ws_not_high; exact Hu).
  rewrite ws_not_low by exact Hu. apply IH, Hpre.
Qed.

Lemma well_formed_trim s : well_formed s = true -> well_formed (trim s) = true.
Proof.
  destruct (trim_start_split s) as (pre & Hpre & Hwpre).
  destruct (trim_end_split (trim_start s)) as (post & Hpost & Hwpost).
  intros H. rewrite Hpre, Hpost in H. rewrite well_formed_ws_prefix in H by exact Hwpre.
  rewrite well_formed_app in H.
  - apply andb_true_iff in H. exact (proj1 H).
  - intros x Hx. apply ws_not_low. rewrite forallb_forall in Hwpost. apply Hwpost, Hx.
Qed.

Lemma sqlite_text_trim s : well_formed s = true -> sqlite_text (trim s) = trim s.
Proof. intros H. apply sqlite_text_fixed, well_formed_trim, H. Qed.

(** * JSON through SQLite *)

Lemma json_text_item it : json_text (item_json it) = item_json (text_item it).
Proof. reflexivity. Qed.

Lemma text_item_idem it : text_item (text_item it) = text_item it.
Proof. unfold text_item. cbn [id name description]. rewrite !sqlite_text_idem. reflexivity. Qed.

Lemma find_map_fst {B} (g : jsstring * B -> bool) (f : B -> B) (l : list (jsstring * B)) :
  (forall p, g (fst p, f (snd p)) = g p) ->
  find g (map (fun p => (fst p, f (snd p))) l) =
    option_map (fun p => (fst p, f (snd p))) (find g l).
Proof.
  intros Hg. induction l as [|p l IH]; [reflexivity|]. simpl. rewrite Hg.
  destruct (g p); [reflexivity | exact IH].
Qed.

Lemma get_prop_text v k :
  get_prop (Some (json_text v)) k = option_map json_text (get_prop (Some v) k).
Proof.
  destruct v as [| | | |l|fs]; try reflexivity.
  cbn [json_text get_prop]. rewrite <- map_rev.
  rewrite (find_map_fst (fun p => jseqb (fst p) k) json_text) by reflexivity.
  destruct (find _ (rev fs)) as [[k' x]|]; reflexivity.
Qed.

Lemma created_id_text r : created_id (response_text r) = created_id r.
Proof.
  unfold created_id, response_text. cbn [status payload].
  destruct (status r =? 201); [|reflexivity].
  destruct (payload r) as [v|]; [|reflexivity]. cbn [option_map].
  rewrite get_prop_text. destruct (get_prop (Some v) (js "id")) as [x|]; [|reflexivity].
  destruct x; reflexivity.
Qed.

Lemma created_ids_text l : created_ids (map response_text l) = created_ids l.
Proof.
  induction l as [|r l IH]; [reflexivity|]. cbn [map].
  rewrite !created_ids_cons, created_id_text, IH. reflexivity.
Qed.

Lemma get_prop_wf v k x :
  json_wf v = true -> get_prop (Some v) k = Some x -> json_wf x = true.
Proof.
  destruct v as [| | | |l|fs]; try discriminate. cbn [get_prop json_wf].
  intros Hwf Hf. destruct (find _ (rev fs)) as [[k' x']|] eqn:E; [|discriminate].
  injection Hf as <-. apply find_some in E as [Hin _]. apply in_rev in Hin.
  rewrite forallb_forall in Hwf. exact (Hwf _ Hin).
Qed.

(** The fields a handler stores from a body of well-formed strings come
    back from SQLite unchanged. *)
Lemma trimmed_fixed b data nm d k :
  body_wf b = true -> parse_body b = Some data -> trimmed_fields data = Some (nm, d) ->
  text_item (mkItem k nm d) = mkItem k nm d.
Proof.
  destruct b as [| |v]; cbn [parse_body body_wf]; intros Hwf Hp; try discriminate.
  - injection Hp as <-. discriminate.
  - injection Hp as <-. unfold trimmed_fields.
    destruct (get_prop (Some v) (js "name")) as [[| | |sn| |]|] eqn:En; try discriminate.
    destruct (get_prop (Some v) (js "description")) as [[| | |sd| |]|] eqn:Ed; try discriminate.
    intros H. injection H as <- <-. unfold text_item. cbn [id name description].
    rewrite !sqlite_text_trim; [reflexivity | ..].
    + exact (get_prop_wf _ _ _ Hwf Ed).
    + exact (get_prop_wf _ _ _ Hwf En).
Qed.

Lemma text_state_fixed m : items_fixed m -> text_state m = m.
Proof.
  destruct m as [its n]. unfold items_fixed, text_state. cbn [Mem.items Mem.nextId].
  intros H. f_equal. induction H as [|it its Hit _ IH]; [reflexivity|].
  simpl. rewrite Hit, IH. reflexivity.
Qed.

(** * The two handlers side by side *)

Module Sim.

Lemma sim_init : sim_rel Mem.init Sql.init.
Proof. split; [reflexivity|]. split; [reflexivity|]. apply MemInv.inv_init. Qed.

Lemma map_id_text l : map id (map text_item l) = map id l.
Proof. rewrite map_map. reflexivity. Qed.

Lemma sim_sql_ok m q : sim_rel m q -> sql_ok q.
Proof.
  intros (Hrows & Hseq & Hs & Hb & Hn). unfold sql_ok.
  rewrite Hrows, map_id_text, Hseq. split; [exact Hs|]. split; [|lia].
  eapply Forall_impl; [|exact Hb]. simpl. lia.
Qed.

Lemma find_map_text n l :
  find (has_id n) (map text_item l) = option_map text_item (find (has_id n) l).
Proof.
  induction l as [|x l IH]; [reflexivity|]. simpl.
  unfold has_id at 1. cbn [text_item id]. fold (has_id n x).
  destruct (has_id n x); [reflexivity | exact IH].
Qed.

Lemma sim_select_all m q : sim_rel m q -> Sql.select_all q = map text_item (Mem.items m).
Proof.
  intros Hsim. pose proof Hsim as (Hrows & Hseq & _ & _ & Hn).
  rewrite SqlInv.select_all_exact; [exact Hrows | apply (sim_sql_ok m q Hsim) | lia].
Qed.

Lemma sim_select_by_id m q n :
  sim_rel m q -> Sql.select_by_id q n = option_map text_item (find (has_id n) (Mem.items m)).
Proof.
  intros Hsim. pose proof Hsim as (Hrows & Hseq & _ & _ & Hn).
  rewrite SqlInv.select_by_id_exact; [|apply (sim_sql_ok m q Hsim) | lia].
  rewrite Hrows. apply find_map_text.
Qed.

Lemma sim_insert m q nm d :
  sim_rel m q ->
  Sql.insert q nm d =
    (Mem.nextId m,
     Sql.mkState (map text_item (Mem.items m ++ [mkItem (Mem.nextId m) nm d])) (Mem.nextId m)).
Proof.
  intros Hsim. pose proof Hsim as (Hrows & Hseq & _ & _ & Hn).
  rewrite (SqlInv.insert_ok q nm d (sim_sql_ok m q Hsim)).
  rewrite Hrows, Hseq, map_app. replace (Mem.nextId m - 1 + 1) with (Mem.nextId m) by lia.
  rewrite to_number_exact by lia. reflexivity.
Qed.

Lemma map_update_absent n nm d l :
  Forall (fun k => k <> n) (map id l) ->
  map (fun it => if has_id n it then mkItem (id it) nm d else it) l = l.
Proof.
  induction l as [|x l IH]; simpl; intros Hf; [reflexivity|].
  inversion Hf as [|? ? Hx Hf']; subst.
  replace (has_id n x) with false by (symmetry; apply Z.eqb_neq; exact Hx).
  rewrite IH by exact Hf'. reflexivity.
Qed.

Lemma filter_absent n l :
  Forall (fun k => k <> n) (map id l) -> filter (fun it => negb (has_id n it)) l = l.
Proof.
  induction l as [|x l IH]; simpl; intros Hf; [reflexivity|].
  inversion Hf as [|? ? Hx Hf']; subst.
  replace (has_id n x) with false by (symmetry; apply Z.eqb_neq; exact Hx).
  simpl. rewrite IH by exact Hf'. reflexivity.
Qed.

Lemma update_replace_first n nm d l :
  StronglySorted Z.lt (map id l) ->
  map (fun it => if has_id n it then mkItem (id it) (sqlite_text nm) (sqlite_text d) else it)
      (map text_item l) =
    map text_item (Mem.replace_first n (mkItem n nm d) l).
Proof.
  induction l as [|x l IH]; intros Hs; [reflexivity|].
  inversion Hs as [|? ? Hs' Hf]; subst. cbn [map Mem.replace_first].
  unfold has_id at 1. cbn [text_item id]. fold (has_id n x).
  destruct (has_id n x) eqn:E.
  - unfold has_id in E. apply Z.eqb_eq in E. subst n. cbn [map].
    rewrite map_update_absent; [reflexivity|].
    rewrite map_id_text. eapply Forall_impl; [|exact Hf]. simpl. lia.
  - cbn [map]. rewrite IH by exact Hs'. reflexivity.
Qed.

Lemma delete_remove_first n l :
  StronglySorted Z.lt (map id l) ->
  filter (fun it => negb (has_id n it)) (map text_item l) = map text_item (Mem.remove_first n l).
Proof.
  induction l as [|x l IH]; intros Hs; [reflexivity|].
  inversion Hs as [|? ? Hs' Hf]; subst. cbn [map Mem.remove_first filter].
  unfold has_id at 1. cbn [text_item id]. fold (has_id n x).
  destruct (has_id n x) eqn:E; cbn [negb].
  - unfold has_id in E. apply Z.eqb_eq in E. subst n.
    apply filter_absent. rewrite map_id_text. eapply Forall_impl; [|exact Hf]. simpl. lia.
  - rewrite IH by exact Hs'. reflexivity.
Qed.

Lemma sim_update m q n nm d :
  sim_rel m q ->
  Sql.update q n nm d =
    Sql.mkState (map text_item (Mem.replace_first n (mkItem n nm d) (Mem.items m))) (Sql.seq q).
Proof.
  intros (Hrows & _ & Hs & _). unfold Sql.update. rewrite Hrows, update_replace_first by exact Hs.
  reflexivity.
Qed.

Lemma sim_delete m q n :
  sim_rel m q ->
  Sql.delete q n = Sql.mkState (map text_item (Mem.remove_first n (Mem.items m))) (Sql.seq q).
Proof.
  intros (Hrows & _ & Hs & _). unfold Sql.delete. rewrite Hrows, delete_remove_first by exact Hs.
  reflexivity.
Qed.

Local Ltac leaf Hrows Hseq Hins Hupd Hdel :=
  rewrite ?Hins, ?Hupd, ?Hdel; cbv beta iota zeta;
  cbn [fst snd negb Sql.rows Sql.seq Mem.items Mem.nextId option_map];
  rewrite ?Hrows, ?Hseq; rewrite ?to_number_exact by lia;
  split; [reflexivity | split; [reflexivity | lia]].

Local Ltac valid_body Hrows Hseq Hins Hupd Hdel :=
  match goal with |- context [validateItemInput ?data] =>
    destruct (validateItemInput data) as [[] errs] eqn:Hv; [|leaf Hrows Hseq Hins Hupd Hdel];
    destruct (trimmed_fields data) as [[nm d]|] eqn:Ht;
    [leaf Hrows Hseq Hins Hupd Hdel |];
    exfalso; assert (Hok : fst (validateItemInput data) = true) by (rewrite Hv; reflexivity);
    destruct (trimmed_fields_valid data Hok) as (? & ? & ?); congruence
  end.

(** One request while [nextId] is below 2^53: SQLite answers what the
    in-memory handler answers on the same items with their text through
    SQLite, and the states stay related. *)
Lemma sim_step m q r :
  sim_rel m q -> Mem.nextId m < 2 ^ 53 ->
  fst (Sql.handle q r) = fst (Mem.handle (text_state m) r) /\
  sim_rel (snd (Mem.handle m r)) (snd (Sql.handle q r)).
Proof.
  intros Hsim Hlt. pose proof (MemInv.inv_step m r (proj2 (proj2 Hsim)) Hlt) as Hinv'.
  enough (fst (Sql.handle q r) = fst (Mem.handle (text_state m) r) /\
          Sql.rows (snd (Sql.handle q r)) = map text_item (Mem.items (snd (Mem.handle m r))) /\
          Sql.seq (snd (Sql.handle q r)) = Mem.nextId (snd (Mem.handle m r)) - 1)
    by (unfold sim_rel; tauto).
  clear Hinv'. pose proof Hsim as (Hrows & Hseq & Hinv). pose proof Hinv as (_ & _ & Hn).
  destruct r as [meth p b].
  unfold Mem.handle, Sql.handle. cbn [method pathname body].
  pose proof (fun nm d => sim_insert m q nm d Hsim) as Hins.
  pose proof (fun n nm d => sim_update m q n nm d Hsim) as Hupd.
  pose proof (fun n => sim_delete m q n Hsim) as Hdel.
  rewrite (sim_select_all m q Hsim).
  cbn [text_state Mem.items Mem.nextId].
  rewrite ?find_map_text.
  destruct (meth =? "OPTIONS")%string; [leaf Hrows Hseq Hins Hupd Hdel|].
  destruct ((meth =? "GET")%string && (p =? "/items")%string); [leaf Hrows Hseq Hins Hupd Hdel|].
  destruct ((meth =? "GET")%string && starts_with_items p).
  { destruct (parse_id p) as [n|]; [|leaf Hrows Hseq Hins Hupd Hdel]. rewrite ?find_map_text.
    rewrite (sim_select_by_id m q n Hsim).
    destruct (find (has_id n) (Mem.items m)); leaf Hrows Hseq Hins Hupd Hdel. }
  destruct ((meth =? "POST")%string && (p =? "/items")%string).
  { destruct (parse_body b) as [data|]; [|leaf Hrows Hseq Hins Hupd Hdel]. valid_body Hrows Hseq Hins Hupd Hdel. }
  destruct ((meth =? "PUT")%string && starts_with_items p).
  { destruct (parse_id p) as [n|]; [|leaf Hrows Hseq Hins Hupd Hdel]. rewrite ?find_map_text.
    rewrite (sim_select_by_id m q n Hsim).
    destruct (find (has_id n) (Mem.items m)); [|leaf Hrows Hseq Hins Hupd Hdel].
    destruct (parse_body b) as [data|]; [|leaf Hrows Hseq Hins Hupd Hdel]. valid_body Hrows Hseq Hins Hupd Hdel. }
  destruct ((meth =? "DELETE")%string && starts_with_items p).
  { destruct (parse_id p) as [n|]; [|leaf Hrows Hseq Hins Hupd Hdel]. rewrite ?find_map_text.
    rewrite (sim_select_by_id m q n Hsim).
    destruct (find (has_id n) (Mem.items m)); leaf Hrows Hseq Hins Hupd Hdel. }
  leaf Hrows Hseq Hins Hupd Hdel.
Qed.

Lemma resp_text_all code l :
  response_text (json_response code (JArr (map item_json l))) =
    response_text (json_response code (JArr (map item_json (map text_item l)))).
Proof.
  unfold response_text, json_response. cbn [status headers payload option_map json_text].
  rewrite !map_map. do 3 f_equal. apply map_ext. intros it.
  rewrite !json_text_item, text_item_idem. reflexivity.
Qed.

Lemma resp_text_one code it :
  response_text (json_response code (item_json it)) =
    response_text (json_response code (item_json (text_item it))).
Proof.
  unfold response_text, json_response. cbn [status headers payload option_map].
  rewrite !json_text_item, text_item_idem. reflexivity.
Qed.

Lemma resp_text_deleted it :
  response_text (deleted_response it) = response_text (deleted_response (text_item it)).
Proof.
  unfold response_text, deleted_response, json_response.
  cbn [status headers payload option_map json_text map fst snd].
  rewrite !json_text_item, text_item_idem. reflexivity.
Qed.

Local Ltac text_leaf :=
  cbv beta iota zeta; cbn [fst snd negb Mem.items Mem.nextId option_map];
  first [ reflexivity | apply resp_text_all | apply resp_text_one | apply resp_text_deleted ].

(** Seen through SQLite, the in-memory handler's answer depends only on the
    text of its items as SQLite would return it. *)
Lemma mem_text_response m r :
  response_text (fst (Mem.handle m r)) = response_text (fst (Mem.handle (text_state m) r)).
Proof.
  destruct r as [meth p b].
  unfold Mem.handle. cbn [method pathname body text_state Mem.items Mem.nextId].
  rewrite ?find_map_text.
  destruct (meth =? "OPTIONS")%string; [text_leaf|].
  destruct ((meth =? "GET")%string && (p =? "/items")%string); [text_leaf|].
  destruct ((meth =? "GET")%string && starts_with_items p).
  { destruct (parse_id p) as [n|]; [|text_leaf]. rewrite ?find_map_text.
    destruct (find (has_id n) (Mem.items m)); text_leaf. }
  destruct ((meth =? "POST")%string && (p =? "/items")%string).
  { destruct (parse_body b) as [data|]; [|text_leaf].
    destruct (validateItemInput data) as [[] errs]; [|text_leaf].
    destruct (trimmed_fields data) as [[nm d]|]; text_leaf. }
  destruct ((meth =? "PUT")%string && starts_with_items p).
  { destruct (parse_id p) as [n|]; [|text_leaf]. rewrite ?find_map_text.
    destruct (find (has_id n) (Mem.items m)); [|text_leaf].
    destruct (parse_body b) as [data|]; [|text_leaf].
    destruct (validateItemInput data) as [[] errs]; [|text_leaf].
    destruct (trimmed_fields data) as [[nm d]|]; text_leaf. }
  destruct ((meth =? "DELETE")%string && starts_with_items p).
  { destruct (parse_id p) as [n|]; [|text_leaf]. rewrite ?find_map_text.
    destruct (find (has_id n) (Mem.items m)); text_leaf. }
  text_leaf.
Qed.

(** Bodies of well-formed strings keep every stored text as SQLite returns it. *)
Lemma fixed_step m r :
  items_fixed m -> body_wf (body r) = true -> items_fixed (snd (Mem.handle m r)).
Proof.
  unfold items_fixed. intros Hfix Hwf. destruct r as [meth p b]. cbn [body] in Hwf.
  unfold Mem.handle. cbn [method pathname body].
  split_handler; cbn [snd Mem.items]; try exact Hfix.
  - apply Forall_app. split; [exact Hfix|]. constructor; [|constructor].
    eapply trimmed_fixed; eassumption.
  - apply Forall_replace_first; [eapply trimmed_fixed; eassumption | exact Hfix].
  - apply Forall_remove_first. exact Hfix.
Qed.

Lemma sim_run m q rs :
  sim_rel m q -> Mem.nextId m + Z.of_nat (length rs) <= 2 ^ 53 ->
  map response_text (fst (run Mem.handle m rs)) = map response_text (fst (run Sql.handle q rs)) /\
  (items_fixed m -> Forall (fun r => body_wf (body r) = true) rs ->
   fst (run Mem.handle m rs) = fst (run Sql.handle q rs)) /\
  sim_rel (snd (run Mem.handle m rs)) (snd (run Sql.handle q rs)).
Proof.
  revert m q. induction rs as [|r rs IH]; intros m q Hsim Hlen.
  - cbn [run fst snd map]. split; [reflexivity | split; [intros; reflexivity | exact Hsim]].
  - cbn [length] in Hlen. rewrite !run_cons. cbn [fst snd map].
    pose proof Hsim as (_ & _ & Hinv).
    assert (Hlt : Mem.nextId m < 2 ^ 53) by lia.
    destruct (sim_step m q r Hsim Hlt) as [Hr Hsim'].
    pose proof (MemInv.nextId_step m r (MemInv.inv_ok m Hinv)) as Hn.
    destruct (IH _ _ Hsim') as (H1 & H2 & H3); [lia|].
    split; [|split; [|exact H3]].
    + rewrite Hr, <- mem_text_response, H1. reflexivity.
    + intros Hfix Hwf. inversion Hwf as [|? ? Hb Hbs]; subst.
      rewrite Hr, (text_state_fixed m Hfix), H2;
        [reflexivity | apply fixed_step; assumption | exact Hbs].
Qed.

End Sim.

(** * The claims on request sequences *)




(** * Decimal ids *)

Lemma js_cons c t : js (String c t) = Z.of_nat (nat_of_ascii c) :: js t.
Proof. reflexivity. Qed.

Lemma code_digit_char d : 0 <= d < 10 -> Z.of_nat (nat_of_ascii (digit_char d)) = 48 + d.
Proof. intros Hd. unfold digit_char. rewrite nat_ascii_embedding by lia. lia. Qed.

Lemma digit_val_code d : 0 <= d < 10 -> digit_val 10 (48 + d) = Some d.
Proof.
  intros Hd. unfold digit_val. cbv zeta.
  replace ((48 <=? 48 + d) && (48 + d <=? 57)) with true
    by (symmetry; apply andb_true_iff; split; apply Z.leb_le; lia).
  replace (48 + d - 48 <? 10) with true by (symmetry; apply Z.ltb_lt; lia).
  f_equal. lia.
Qed.

Lemma digits_acc_value f n tail seen :
  0 <= n -> n < 10 ^ (Z.of_nat f + 1) ->
  digits_prefix 10 (js (digits_acc f n tail)) 0 seen = digits_prefix 10 (js tail) n true.
Proof.
  revert n tail seen. induction f as [|f IH]; intros n tail seen Hn Hf; simpl digits_acc.
  - simpl in Hf. rewrite js_cons, code_digit_char by (apply Z.mod_pos_bound; lia).
    cbn [digits_prefix]. rewrite digit_val_code by (apply Z.mod_pos_bound; lia).
    rewrite Z.mod_small by lia. reflexivity.
  - destruct (n <? 10) eqn:E.
    + apply Z.ltb_lt in E. rewrite js_cons, code_digit_char by lia.
      cbn [digits_prefix]. rewrite digit_val_code by lia. reflexivity.
    + apply Z.ltb_ge in E.
      replace (Z.of_nat (S f) + 1) with (Z.succ (Z.of_nat f + 1)) in Hf by lia.
      rewrite Z.pow_succ_r in Hf by lia.
      rewrite IH; [| apply Z.div_pos; lia | apply Z.div_lt_upper_bound; lia].
      rewrite js_cons, code_digit_char by (apply Z.mod_pos_bound; lia).
      cbn [digits_prefix]. rewrite digit_val_code by (apply Z.mod_pos_bound; lia).
      f_equal. pose proof (Z.div_mod n 10). lia.
Qed.

Lemma digits_acc_digits f n tail :
  0 <= n -> Forall (fun u => 48 <= u <= 57) (js tail) ->
  Forall (fun u => 48 <= u <= 57) (js (digits_acc f n tail)) /\ js (digits_acc f n tail) <> [].
Proof.
  revert n tail. induction f as [|f IH]; intros n tail Hn Ht; simpl digits_acc.
  - pose proof (Z.mod_pos_bound n 10). rewrite js_cons, code_digit_char by lia.
    split; [constructor; [lia | exact Ht] | discriminate].
  - destruct (n <? 10) eqn:E.
    + apply Z.ltb_lt in E. rewrite js_cons, code_digit_char by lia.
      split; [constructor; [lia | exact Ht] | discriminate].
    + apply Z.ltb_ge in E. apply IH; [apply Z.div_pos; lia|].
      pose proof (Z.mod_pos_bound n 10). rewrite js_cons, code_digit_char by lia.
      constructor; [lia | exact Ht].
Qed.

Lemma digit_not_ws u : 48 <= u <= 57 -> is_ws u = false.
Proof.
  intros Hu. destruct (is_ws u) eqn:E; [|reflexivity]. unfold is_ws in E.
  repeat (rewrite orb_true_iff in E || rewrite andb_true_iff in E).
  rewrite ?Z.leb_le, ?Z.eqb_eq in E. lia.
Qed.

Lemma parseInt_digits s :
  s <> [] -> Forall (fun u => 48 <= u <= 57) s ->
  parseInt s = option_map to_number (digits_prefix 10 s 0 false).
Proof.
  intros Hne Hall. destruct s as [|c t]; [contradiction|].
  inversion Hall as [|? ? Hc Ht]; subst.
  unfold parseInt. cbn [trim_start]. rewrite (digit_not_ws c Hc).
  replace (c =? 45) with false by (symmetry; apply Z.eqb_neq; lia).
  replace (c =? 43) with false by (symmetry; apply Z.eqb_neq; lia).
  destruct t as [|x t].
  - cbv beta iota zeta. destruct (digits_prefix 10 [c] 0 false); cbn [option_map];
      [rewrite Z.mul_1_l|]; reflexivity.
  - inversion Ht as [|? ? Hx _]; subst.
    replace ((x =? 120) || (x =? 88)) with false
      by (symmetry; apply orb_false_iff; split; apply Z.eqb_neq; lia).
    rewrite andb_false_r. cbv beta iota zeta.
    destruct (digits_prefix 10 (c :: x :: t) 0 false); cbn [option_map];
      [rewrite Z.mul_1_l|]; reflexivity.
Qed.

Lemma decimal_bound n : 0 <= n -> n < 10 ^ (Z.of_nat (S (Z.to_nat (Z.log2 n))) + 1).
Proof.
  intros Hn. pose proof (Z.log2_nonneg n) as Hl.
  rewrite Nat2Z.inj_succ, Z2Nat.id by exact Hl.
  destruct (Z.eq_dec n 0) as [->|Hn0]; [reflexivity|].
  destruct (Z.log2_spec n) as [_ Hlt]; [lia|].
  assert (2 ^ Z.succ (Z.log2 n) <= 10 ^ Z.succ (Z.log2 n)) by (apply Z.pow_le_mono_l; lia).
  assert (10 ^ Z.succ (Z.log2 n) <= 10 ^ (Z.succ (Z.log2 n) + 1)) by (apply Z.pow_le_mono_r; lia).
  lia.
Qed.

(** The id segment of [item_path n] reads back as the Number [n]. *)
Lemma parse_id_item_path n : 0 <= n -> parse_id (item_path n) = Some (to_number n).
Proof.
  intros Hn. unfold item_path, decimal. rewrite parse_id_items.
  destruct (digits_acc_digits (S (Z.to_nat (Z.log2 n))) n "" Hn (Forall_nil _)) as [Hall Hne].
  rewrite (split_no_sep "/" _).
  2: { intro Hin. apply (in_map (fun c => Z.of_nat (nat_of_ascii c))) in Hin.
       rewrite Forall_forall in Hall. apply Hall in Hin. cbn in Hin. lia. }
  cbn [nth]. rewrite (parseInt_digits _ Hne Hall), digits_acc_value by (try apply decimal_bound; lia).
  reflexivity.
Qed.

Lemma parse_id_exact n : 0 <= n <= 2 ^ 53 -> parse_id (item_path n) = Some n.
Proof. intros Hn. rewrite parse_id_item_path, to_number_exact by lia. reflexivity. Qed.

Lemma starts_with_item_path n : starts_with_items (item_path n) = true.
Proof. apply starts_with_items_app. Qed.

(** * Requests on an id *)

Ltac id_route Hsw Hid :=
  unfold Mem.handle, Sql.handle; cbn [method pathname body];
  rewrite (starts_with_items_not_list _ Hsw), Hsw, Hid.

Lemma mem_get_route s path n b :
  starts_with_items path = true -> parse_id path = Some n ->
  Mem.handle s (mkRequest "GET" path b) =
    (match find (has_id n) (Mem.items s) with
     | Some it => json_response 200 (item_json it)
     | None => item_not_found_response
     end, s).
Proof.
  intros Hsw Hid. id_route Hsw Hid. cbn -[find].
  destruct (find (has_id n) (Mem.items s)); reflexivity.
Qed.




Lemma mem_get_all s :
  Mem.handle s get_all = (json_response 200 (JArr (map item_json (Mem.items s))), s).
Proof. reflexivity. Qed.

Lemma sql_get_all q :
  Sql.handle q get_all = (json_response 200 (JArr (map item_json (Sql.select_all q))), q).
Proof. reflexivity. Qed.

(** * Writes *)

Lemma mem_post_valid s v nm d :
  get_prop (Some v) (js "name") = Some (JStr nm) ->
  get_prop (Some v) (js "description") = Some (JStr d) ->
  fst (validateItemInput (Some v)) = true ->
  Mem.handle s (post_item (JsonText v)) =
    (json_response 201 (item_json (mkItem (Mem.nextId s) (trim nm) (trim d))),
     Mem.mkState (Mem.items s ++ [mkItem (Mem.nextId s) (trim nm) (trim d)])
                 (to_number (Mem.nextId s + 1))).
Proof.
  intros Hn Hd Hv. unfold Mem.handle. reduce_handler.
  destruct (validateItemInput (Some v)) as [ok errs]. simpl in Hv. subst ok.
  cbn [negb]. rewrite (trimmed_fields_strings _ _ _ Hn Hd). reflexivity.
Qed.

Lemma mem_post_body s nm d :
  fst (validateItemInput (Some (sample_body nm d))) = true ->
  Mem.handle s (post_item (item_body nm d)) =
    (json_response 201 (item_json (mkItem (Mem.nextId s) (trim (js nm)) (trim (js d)))),
     Mem.mkState (Mem.items s ++ [mkItem (Mem.nextId s) (trim (js nm)) (trim (js d))])
                 (to_number (Mem.nextId s + 1))).
Proof. intros Hv. apply mem_post_valid; [reflexivity | reflexivity | exact Hv]. Qed.




(** * Beyond 2^53 *)

Lemma mem_posts_a s k :
  0 <= Mem.nextId s -> Mem.nextId s + Z.of_nat k <= 2 ^ 53 ->
  snd (run Mem.handle s (repeat (post_item (item_body "a" "a")) k)) =
    Mem.mkState (Mem.items s ++ map (fun i => mkItem i (js "a") (js "a")) (zseq (Mem.nextId s) k))
                (Mem.nextId s + Z.of_nat k).
Proof.
  revert s. induction k as [|k IH]; intros s H0 Hk.
  - destruct s as [its nid]. cbn [repeat run snd zseq map Mem.items Mem.nextId].
    rewrite app_nil_r, Z.add_0_r. reflexivity.
  - cbn [repeat]. rewrite run_cons, mem_post_body by reflexivity.
    cbn [snd Mem.items Mem.nextId]. rewrite to_number_exact by lia.
    rewrite IH by (cbn [Mem.nextId]; lia). cbn [Mem.items Mem.nextId zseq map].
    rewrite <- app_assoc. f_equal. lia.
Qed.

Lemma to_nat_2p53 : Z.to_nat (2 ^ 53) = S (Z.to_nat (2 ^ 53 - 1)).
Proof. rewrite <- Z2Nat.inj_succ by lia. apply (f_equal Z.to_nat). lia. Qed.

Lemma mem_posts_a_last K :
  Z.of_nat K = 2 ^ 53 - 1 ->
  snd (run Mem.handle Mem.init (repeat (post_item (item_body "a" "a")) (S K))) =
    Mem.mkState (map (fun i => mkItem i (js "a") (js "a")) (zseq 1 K) ++
                 [mkItem (2 ^ 53) (js "a") (js "a")]) (2 ^ 53).
Proof.
  intros HK. replace (S K) with (K + 1)%nat by lia.
  rewrite repeat_app, run_app. cbn [snd].
  rewrite (mem_posts_a Mem.init K) by (cbn [Mem.nextId Mem.init]; lia).
  cbn [repeat]. rewrite run_cons, mem_post_body by reflexivity.
  cbn [run fst snd Mem.items Mem.nextId Mem.init app].
  replace (1 + Z.of_nat K) with (2 ^ 53) by lia. rewrite to_number_2p53_succ. reflexivity.
Qed.

(** After 2^53 POSTs the store holds the ids 1, ..., 2^53 and [nextId++]
    has stopped at 2^53. *)
Lemma mem_full_eq :
  mem_full = Mem.mkState (full_prefix ++ [mkItem (2 ^ 53) (js "a") (js "a")]) (2 ^ 53).
Proof.
  unfold mem_full, full_prefix. rewrite to_nat_2p53.
  apply mem_posts_a_last. apply Z2Nat.id. lia.
Qed.

Lemma prefix_ids_below K :
  Z.of_nat K = 2 ^ 53 - 1 ->
  Forall (fun j => j <> 2 ^ 53) (map id (map (fun i => mkItem i (js "a") (js "a")) (zseq 1 K))).
Proof.
  intros HK. rewrite map_map.
  pose proof (zseq_bounds 1 K) as Hb. rewrite Forall_forall in Hb |- *.
  intros j Hj. apply in_map_iff in Hj as (i & <- & Hi). specialize (Hb i Hi). cbn [id]. lia.
Qed.

Lemma full_prefix_ids : Forall (fun j => j <> 2 ^ 53) (map id full_prefix).
Proof. apply prefix_ids_below. apply Z2Nat.id. lia. Qed.

Lemma mem_full_reachable : reachable Mem.handle Mem.init mem_full.
Proof. apply run_reachable, reach_init. Qed.

Lemma mem_full_post_b :
  Mem.handle mem_full (post_item (item_body "b" "b")) =
    (json_response 201 (item_json (mkItem (2 ^ 53) (js "b") (js "b"))),
     Mem.mkState (full_prefix ++ mkItem (2 ^ 53) (js "a") (js "a") :: [mkItem (2 ^ 53) (js "b") (js "b")])
                 (2 ^ 53))%list.
Proof.
  rewrite mem_full_eq, mem_post_body by reflexivity. cbn [Mem.items Mem.nextId].
  rewrite to_number_2p53_succ, <- app_assoc. reflexivity.
Qed.

(** C4.  While [nextId] is below 2^53, from a reachable state a valid POST
    /items answers 201 with the item [nextId] carrying the trimmed name and
    description, and a GET on that id right after answers 200 with the same
    item. *)
Theorem create_then_read (s : Mem.state) (v : json) (nm d : jsstring) :
  reachable Mem.handle Mem.init s -> Mem.nextId s < 2 ^ 53 ->
  get_prop (Some v) (js "name") = Some (JStr nm) ->
  get_prop (Some v) (js "description") = Some (JStr d) ->
  fst (validateItemInput (Some v)) = true ->
  let it := mkItem (Mem.nextId s) (trim nm) (trim d) in
  let s' := snd (Mem.handle s (post_item (JsonText v))) in
  fst (Mem.handle s (post_item (JsonText v))) = json_response 201 (item_json it) /\
  Mem.handle s' (mkRequest "GET" (item_path (Mem.nextId s)) NoBody) =
    (json_response 200 (item_json it), s').
Proof.
  intros Hr Hlt Hn Hd Hv it s'.
  pose proof (MemInv.reachable_inv s Hr Hlt) as (_ & Hb & Hnext).
  subst s'. rewrite (mem_post_valid s v nm d Hn Hd Hv). cbn [fst snd]. split; [reflexivity|].
  rewrite (mem_get_route _ _ (Mem.nextId s) _ (starts_with_item_path _)) by (apply parse_id_exact; lia).
  cbn [Mem.items]. rewrite (find_app_absent _ _ _ []); [reflexivity| |reflexivity].
  eapply Forall_impl; [|exact Hb]. simpl. lia.
Qed.

Lemma create_then_read_witness :
  Mem.nextId (snd (run Mem.handle Mem.init three_posts)) < 2 ^ 53 /\
  fst (Mem.handle (snd (run Mem.handle Mem.init three_posts))
         (post_item (JsonText (sample_body " d " "w")))) =
    json_response 201 (item_json (mkItem 4 (js "d") (js "w"))).
Proof.
  assert (H : Mem.nextId (snd (run Mem.handle Mem.init three_posts)) < 2 ^ 53)
    by (vm_compute; reflexivity).
  split; [exact H|].
  exact (proj1 (create_then_read _ (sample_body " d " "w") (js " d ") (js "w")
    (run_reachable _ _ _ three_posts (reach_init _ _ _)) H eq_refl eq_refl eq_refl)).
Defined.

(** After 2^53 POSTs [nextId] is stuck at 2^53: the next POST creates a
    second item 2^53, and a GET on that id finds the first one. *)
Lemma create_then_read_counterexample :
  reachable Mem.handle Mem.init mem_full /\ Mem.nextId mem_full = 2 ^ 53 /\
  fst (Mem.handle mem_full (post_item (item_body "b" "b"))) =
    json_response 201 (item_json (mkItem (2 ^ 53) (js "b") (js "b"))) /\
  fst (Mem.handle (snd (Mem.handle mem_full (post_item (item_body "b" "b"))))
         (mkRequest "GET" (item_path (2 ^ 53)) NoBody)) =
    json_response 200 (item_json (mkItem (2 ^ 53) (js "a") (js "a"))).
Proof.
  split; [exact mem_full_reachable|].
  split; [rewrite mem_full_eq; reflexivity|].
  rewrite mem_full_post_b. cbn [fst snd]. split; [reflexivity|].
  pose proof full_prefix_ids as HX. revert HX. generalize full_prefix. intros X HX.
  rewrite (mem_get_route _ _ (2 ^ 53) _ (starts_with_item_path _)) by (apply parse_id_exact; lia).
  cbn [Mem.items fst].
  rewrite (find_app_absent _ X (mkItem (2 ^ 53) (js "a") (js "a")) _ HX eq_refl). reflexivity.
Qed.

(** * Ids *)

Lemma sql_created_id_step q r k :
  created_id (fst (Sql.handle q r)) = Some k ->
  k = to_number (Z.max (Sql.seq q) (Sql.max_rowid (Sql.rows q)) + 1).
Proof.
  destruct (SqlInv.sql_handle_cases q r) as [(nm & d & Hc & _) | (Hc & _)]; rewrite Hc; [|discriminate].
  intros H. injection H as <-. reflexivity.
Qed.

Lemma created_ids_resp_text l1 l2 :
  map response_text l1 = map response_text l2 -> created_ids l1 = created_ids l2.
Proof. intros H. rewrite <- (created_ids_text l1), <- (created_ids_text l2), H. reflexivity. Qed.

Lemma run_snoc_snd {state} (step : state -> request -> response * state) s rs r :
  snd (run step s (rs ++ [r])) = snd (step (snd (run step s rs)) r).
Proof. rewrite run_app. cbn [snd]. rewrite run_cons. reflexivity. Qed.

(** 2^53 POSTs of "a" followed by one of "b", from the empty store. *)
Lemma mem_run_full_post_b :
  snd (run Mem.handle Mem.init
         (repeat (post_item (item_body "a" "a")) (Z.to_nat (2 ^ 53)) ++ [post_item (item_body "b" "b")])) =
    Mem.mkState (full_prefix ++ mkItem (2 ^ 53) (js "a") (js "a") :: [mkItem (2 ^ 53) (js "b") (js "b")])
                (2 ^ 53).
Proof.
  rewrite run_snoc_snd. unfold full_prefix.
  rewrite to_nat_2p53, mem_posts_a_last by (apply Z2Nat.id; lia).
  rewrite mem_post_body by reflexivity. cbn [Mem.items Mem.nextId].
  rewrite to_number_2p53_succ, <- app_assoc. reflexivity.
Qed.

Lemma NoDup_last_twice (l : list Z) a : ~ NoDup (l ++ [a; a])%list.
Proof.
  intros H. apply NoDup_app_remove_l in H. inversion H as [|? ? Hin _]. apply Hin. left. reflexivity.
Qed.

(** C5.  After any request sequence [rs1] from the empty store, with
    [rs1] followed by [rs2] shorter than 2^53 requests, in both the
    in-memory and the SQLite server: the stored ids are pairwise distinct;
    the ids created over [rs1] followed by [rs2] strictly increase; an id
    created during [rs1] or stored after it is never created again during
    [rs2], so the id of a deleted item is not reused; and the id a request
    would create is fixed by the store alone, whatever the request body. *)
Theorem store_ids_invariant (rs1 rs2 : list request) (r : request) :
  Z.of_nat (length (rs1 ++ rs2)) < 2 ^ 53 ->
  let s := snd (run Mem.handle Mem.init rs1) in
  let q := snd (run Sql.handle Sql.init rs1) in
  NoDup (map id (Mem.items s)) /\ NoDup (map id (Sql.rows q)) /\
  StronglySorted Z.lt (created_ids (fst (run Mem.handle Mem.init (rs1 ++ rs2)))) /\
  StronglySorted Z.lt (created_ids (fst (run Sql.handle Sql.init (rs1 ++ rs2)))) /\
  (forall k, In k (created_ids (fst (run Mem.handle Mem.init rs1))) \/ In k (map id (Mem.items s)) ->
     ~ In k (created_ids (fst (run Mem.handle s rs2)))) /\
  (forall k, In k (created_ids (fst (run Sql.handle Sql.init rs1))) \/ In k (map id (Sql.rows q)) ->
     ~ In k (created_ids (fst (run Sql.handle q rs2)))) /\
  (forall k, created_id (fst (Mem.handle s r)) = Some k -> k = Mem.nextId s) /\
  (forall k, created_id (fst (Sql.handle q r)) = Some k ->
     k = to_number (Z.max (Sql.seq q) (Sql.max_rowid (Sql.rows q)) + 1)).
Proof.
  intros Hlen s q. rewrite length_app in Hlen.
  destruct (MemInv.run_reachable_inv rs1) as [Hinv Hnext]; [lia|]. fold s in Hinv, Hnext.
  destruct (Sim.sim_run _ _ rs1 Sim.sim_init) as (Hresp1 & _ & Hsim);
    [cbn [Mem.nextId Mem.init]; lia|].
  fold s q in Hsim.
  destruct (Sim.sim_run _ _ (rs1 ++ rs2) Sim.sim_init) as (Hresp12 & _ & _);
    [cbn [Mem.nextId Mem.init]; rewrite length_app; lia|].
  destruct (Sim.sim_run _ _ rs2 Hsim) as (Hresp2 & _ & _); [lia|].
  pose proof Hsim as (Hrows & _ & _).
  assert (Hnodup : NoDup (map id (Mem.items s))) by apply StronglySorted_lt_NoDup, Hinv.
  assert (Hsorted : StronglySorted Z.lt (created_ids (fst (run Mem.handle Mem.init (rs1 ++ rs2))))).
  { apply (created_ids_from _ _ MemInv.inv_init). cbn [Mem.nextId Mem.init].
    rewrite length_app. lia. }
  assert (Hfresh : forall k, In k (created_ids (fst (run Mem.handle Mem.init rs1))) \/
                             In k (map id (Mem.items s)) ->
                   ~ In k (created_ids (fst (run Mem.handle s rs2)))).
  { intros k Hk Hin.
    assert (k < Mem.nextId s) as Hlt.
    { destruct Hk as [Hk | Hk].
      - assert (Hf : Forall (fun k => k < Mem.nextId s) (created_ids (fst (run Mem.handle Mem.init rs1))))
          by (apply (created_below Mem.init rs1 MemInv.inv_init); cbn [Mem.nextId Mem.init]; lia).
        rewrite Forall_forall in Hf. exact (Hf k Hk).
      - destruct Hinv as (_ & Hb & _). rewrite Forall_forall in Hb. apply (Hb k Hk). }
    destruct (created_ids_from s rs2 Hinv) as [_ Hge]; [lia|].
    rewrite Forall_forall in Hge. specialize (Hge k Hin). lia. }
  repeat split.
  - exact Hnodup.
  - rewrite Hrows, Sim.map_id_text. exact Hnodup.
  - exact Hsorted.
  - rewrite <- (created_ids_resp_text _ _ Hresp12). exact Hsorted.
  - exact Hfresh.
  - rewrite <- (created_ids_resp_text _ _ Hresp1), <- (created_ids_resp_text _ _ Hresp2),
      Hrows, Sim.map_id_text.
    exact Hfresh.
  - apply created_id_step.
  - apply sql_created_id_step.
Qed.

Lemma store_ids_invariant_witness :
  Z.of_nat (length (three_posts ++ [mkRequest "DELETE" (item_path 3) NoBody;
                                    post_item (item_body "d" "w")])) < 2 ^ 53 /\
  created_ids (fst (run Sql.handle Sql.init
    (three_posts ++ [mkRequest "DELETE" (item_path 3) NoBody; post_item (item_body "d" "w")]))) =
    [1; 2; 3; 4] /\
  StronglySorted Z.lt (created_ids (fst (run Sql.handle Sql.init
    (three_posts ++ [mkRequest "DELETE" (item_path 3) NoBody; post_item (item_body "d" "w")])))).
Proof.
  assert (H : Z.of_nat (length (three_posts ++ [mkRequest "DELETE" (item_path 3) NoBody;
                                                post_item (item_body "d" "w")])) < 2 ^ 53)
    by (vm_compute; reflexivity).
  split; [exact H|]. split; [vm_compute; reflexivity|].
  exact (proj1 (proj2 (proj2 (proj2 (store_ids_invariant three_posts
    [mkRequest "DELETE" (item_path 3) NoBody; post_item (item_body "d" "w")] get_all H))))).
Defined.

(** After 2^53 + 1 POSTs from the empty store, two stored items have the
    id 2^53. *)
Lemma store_ids_invariant_counterexample :
  ~ NoDup (map id (Mem.items (snd (run Mem.handle Mem.init
      (repeat (post_item (item_body "a" "a")) (Z.to_nat (2 ^ 53)) ++
       [post_item (item_body "b" "b")]))))).
Proof.
  rewrite mem_run_full_post_b. cbn [Mem.items].
  generalize full_prefix. intros X.
  rewrite map_app. cbn [map id]. apply NoDup_last_twice.
Qed.

(** From the empty SQLite store the first id created is 1. *)
Lemma sql_first_created rs k :
  hd_error (created_ids (fst (run Sql.handle Sql.init rs))) = Some k -> k = 1.
Proof.
  induction rs as [|r rs IH]; [discriminate|].
  rewrite run_cons. cbn [fst]. rewrite created_ids_cons.
  destruct (SqlInv.sql_handle_cases Sql.init r)
    as [(nm & d & Hc & _) | (Hc & [Hs | [(n & nm & d & Hs) | (n & Hs)]])]; rewrite Hc.
  - intros H. injection H as <-. reflexivity.
  - rewrite Hs. exact IH.
  - rewrite Hs. exact IH.
  - rewrite Hs. exact IH.
Qed.

(** C6.  Whatever the state before [resetMyServerData], GET /items answers
    200 with an empty array afterwards, and along any request sequence after
    the reset the first item created gets id 1; in both servers (the SQLite
    reset with its database open). *)
Theorem reset_restarts (s : Mem.state) (q : Sql.state) (rs : list request) :
  fst (Mem.handle (Mem.reset s) get_all) = json_response 200 (JArr []) /\
  fst (Sql.handle (Sql.reset q) get_all) = json_response 200 (JArr []) /\
  (forall k, hd_error (created_ids (fst (run Mem.handle (Mem.reset s) rs))) = Some k -> k = 1) /\
  (forall k, hd_error (created_ids (fst (run Sql.handle (Sql.reset q) rs))) = Some k -> k = 1).
Proof.
  split; [reflexivity|]. split; [reflexivity|]. split.
  - intros k Hk. exact (first_created _ _ _ Hk).
  - change (Sql.reset q) with Sql.init. apply sql_first_created.
Qed.

(** * Deleting *)






(** * Beyond the claims *)

(** ** [trim] *)

(** X1.  [trim] is idempotent, and it only removes white space: every
    string is some white space, its trimmed text, then some white space. *)
Theorem trim_idempotent_strips_ws (s : jsstring) :
  trim (trim s) = trim s /\
  exists pre post, s = (pre ++ trim s ++ post)%list /\
    forallb is_ws pre = true /\ forallb is_ws post = true.
Proof.
  split; [apply trim_idem|].
  destruct (trim_start_split s) as (pre & Hpre & Hwpre).
  destruct (trim_end_split (trim_start s)) as (post & Hpost & Hwpost).
  exists pre, post. split; [|split; assumption].
  unfold trim. rewrite <- Hpost. exact Hpre.
Qed.

(** X2.  A string trims to the empty string exactly when all its code
    units are white space: this is what makes a blank name or description
    "required". *)
Theorem trim_empty_iff_blank (s : jsstring) : trim s = [] <-> forallb is_ws s = true.
Proof.
  unfold trim. rewrite trim_end_empty.
  destruct (trim_start_split s) as (pre & Hpre & Hw).
  rewrite Hpre at 2. rewrite forallb_ws_app, Hw. reflexivity.
Qed.

(** ** [String.prototype.split] *)

Lemma split_nonempty sep s : split sep s <> [].
Proof.
  destruct s as [|c t]; simpl; [discriminate|].
  destruct (Ascii.eqb c sep); [discriminate|]. destruct (split sep t); discriminate.
Qed.

(** X3.  [s.split(sep)] cuts [s] into pieces none of which holds [sep] and
    which, joined with [sep], give back [s]. *)
Theorem split_join (sep : ascii) (s : string) :
  String.concat (String sep EmptyString) (split sep s) = s /\
  Forall (fun w => ~ In sep (list_ascii_of_string w)) (split sep s).
Proof.
  induction s as [|c t [IHc IHf]]; [split; [reflexivity | repeat constructor; simpl; tauto]|].
  simpl. destruct (Ascii.eqb c sep) eqn:E.
  - apply Ascii.eqb_eq in E. subst c. split.
    + pose proof (split_nonempty sep t) as Hne.
      destruct (split sep t) as [|w ws]; [contradiction|].
      simpl. rewrite <- IHc. reflexivity.
    + constructor; [simpl; tauto | exact IHf].
  - pose proof (split_nonempty sep t) as Hne.
    destruct (split sep t) as [|w ws]; [contradiction|].
    inversion IHf as [|? ? Hw Hws]; subst. split.
    + destruct ws; reflexivity.
    + constructor; [|exact Hws]. simpl. intros [H | H]; [|exact (Hw H)].
      subst. rewrite Ascii.eqb_refl in E. discriminate.
Qed.

(** ** Every response *)

Lemma Mem_response_shape s r :
  fst (Mem.handle s r) = options_response \/
  exists code v, fst (Mem.handle s r) = json_response code v.
Proof.
  destruct r as [m p b]. unfold Mem.handle. cbn [method pathname body].
  split_handler; cbn [fst]; first [left; reflexivity | right; do 2 eexists; reflexivity].
Qed.

Lemma Sql_response_shape q r :
  fst (Sql.handle q r) = options_response \/
  exists code v, fst (Sql.handle q r) = json_response code v.
Proof.
  destruct r as [m p b]. unfold Sql.handle. cbn [method pathname body].
  split_handler; cbn [fst]; first [left; reflexivity | right; do 2 eexists; reflexivity].
Qed.

Lemma shape_headers resp :
  (resp = options_response \/ exists code v, resp = json_response code v) ->
  headers resp = (cors_headers ++
    match payload resp with
    | Some _ => [("Content-Type", "application/json")]
    | None => []
    end)%list.
Proof. intros [-> | (code & v & ->)]; reflexivity. Qed.

(** X4.  Every response of either server carries the three CORS headers,
    followed by "Content-Type: application/json" exactly when it has a
    body; only the OPTIONS answer has none. *)
Theorem cors_on_every_response (s : Mem.state) (q : Sql.state) (r : request) :
  let ct resp := match payload resp with
                 | Some _ => [("Content-Type", "application/json")]
                 | None => []
                 end in
  headers (fst (Mem.handle s r)) = (cors_headers ++ ct (fst (Mem.handle s r)))%list /\
  headers (fst (Sql.handle q r)) = (cors_headers ++ ct (fst (Sql.handle q r)))%list /\
  (payload (fst (Mem.handle s r)) = None <-> method r = "OPTIONS") /\
  (payload (fst (Sql.handle q r)) = None <-> method r = "OPTIONS").
Proof.
  intros ct. split; [apply shape_headers, Mem_response_shape|].
  split; [apply shape_headers, Sql_response_shape|].
  destruct r as [m p b]. cbn [method].
  split; [unfold Mem.handle | unfold Sql.handle]; cbn [method pathname body];
    destruct (String.eqb m "OPTIONS") eqn:E;
    [rewrite String.eqb_eq in E; subst m; split; reflexivity| |
     rewrite String.eqb_eq in E; subst m; split; reflexivity|];
    (split; [|intros ->; discriminate]); split_handler; discriminate.
Qed.

(** X5.  Both servers answer 404 "Not found" exactly to the requests outside
    their routes (another method, or a path that is neither "/items" nor
    under "/items/", or POST under "/items/", or PUT and DELETE on "/items"),
    and such a request leaves the store unchanged. *)
Theorem not_found_iff_unrouted (s : Mem.state) (q : Sql.state) (r : request) :
  (fst (Mem.handle s r) = not_found_response <-> is_routed (method r) (pathname r) = false) /\
  (is_routed (method r) (pathname r) = false -> snd (Mem.handle s r) = s) /\
  (fst (Sql.handle q r) = not_found_response <-> is_routed (method r) (pathname r) = false) /\
  (is_routed (method r) (pathname r) = false -> snd (Sql.handle q r) = q).
Proof.
  destruct r as [m p b]. unfold Mem.handle, Sql.handle, is_routed. cbn [method pathname body].
  route_atoms m p; split_handler;
    repeat split; intros H; try reflexivity; discriminate H.
Qed.

(** X6.  The store only changes through a POST answered 201, or a PUT or a
    DELETE answered 200: every other request, and every failing one, leaves
    it as it was, in both servers. *)
Theorem store_changes_only_on_writes (s : Mem.state) (q : Sql.state) (r : request) :
  (snd (Mem.handle s r) = s \/
   (method r = "POST" /\ status (fst (Mem.handle s r)) = 201) \/
   ((method r = "PUT" \/ method r = "DELETE") /\ status (fst (Mem.handle s r)) = 200)) /\
  (snd (Sql.handle q r) = q \/
   (method r = "POST" /\ status (fst (Sql.handle q r)) = 201) \/
   ((method r = "PUT" \/ method r = "DELETE") /\ status (fst (Sql.handle q r)) = 200)).
Proof.
  destruct r as [m p b]. cbn [method].
  split; [unfold Mem.handle | unfold Sql.handle]; cbn [method pathname body];
    destruct (String.eqb m "OPTIONS") eqn:?; destruct (String.eqb m "GET") eqn:?;
    destruct (String.eqb m "POST") eqn:?; destruct (String.eqb m "PUT") eqn:?;
    destruct (String.eqb m "DELETE") eqn:?; cbn [andb];
    split_handler; write_leaf.
Qed.

(** X7.  With its SQL statements succeeding, the SQLite server never answers
    500 "Internal server error": a validated body always has string fields.
    In both servers, 400 "Invalid JSON" answers only a body that is not JSON. *)
Theorem no_server_error (s : Mem.state) (q : Sql.state) (r : request) :
  fst (Sql.handle q r) <> server_error_response /\
  (fst (Mem.handle s r) = invalid_json_response -> body r = Malformed) /\
  (fst (Sql.handle q r) = invalid_json_response -> body r = Malformed).
Proof.
  destruct r as [m p b]. cbn [body]. unfold Mem.handle, Sql.handle. cbn [method pathname body].
  split_handler; try valid_without_fields trimmed_fields_valid;
    repeat split; intros H; try discriminate H; destruct b; first [reflexivity | discriminate].
Qed.

(** ** Writes on a reachable store *)





(** ** Reads and lookups on a reachable store *)

(** X10.  In a reachable state, GET /items answers 200 with the stored
    items.  In memory they are listed by non-decreasing id, by strictly
    increasing id while [nextId] is below 2^53.  In SQLite the listing reads
    the rows in insertion order, whose rowids strictly increase; while
    [sqlite_sequence <= 2^53] it is the rows themselves. *)
Theorem listing_sorted_by_id (s : Mem.state) (q : Sql.state) :
  reachable Mem.handle Mem.init s -> reachable Sql.handle Sql.init q ->
  Mem.handle s get_all = (json_response 200 (JArr (map item_json (Mem.items s))), s) /\
  StronglySorted Z.le (map id (Mem.items s)) /\
  (Mem.nextId s < 2 ^ 53 -> StronglySorted Z.lt (map id (Mem.items s))) /\
  Sql.handle q get_all = (json_response 200 (JArr (map item_json (Sql.select_all q))), q) /\
  Sql.select_all q = map Sql.read (Sql.rows q) /\
  StronglySorted Z.lt (map id (Sql.rows q)) /\
  (Sql.seq q <= 2 ^ 53 -> Sql.select_all q = Sql.rows q).
Proof.
  intros Hs Hq. pose proof (SqlInv.sql_reachable_ok q Hq) as Hok.
  split; [apply mem_get_all|]. split; [apply (proj1 (MemInv.reachable_ok s Hs))|].
  split; [intros Hlt; apply (proj1 (MemInv.reachable_inv s Hs Hlt))|].
  split; [apply sql_get_all|]. split; [apply SqlInv.select_all_rows, Hok|].
  split; [apply (proj1 Hok)|]. intros Hseq. apply SqlInv.select_all_exact; assumption.
Qed.

Lemma listing_sorted_by_id_witness :
  StronglySorted Z.lt (map id (Sql.rows (snd (run Sql.handle Sql.init three_posts)))).
Proof.
  exact (proj1 (proj2 (proj2 (proj2 (proj2 (proj2 (listing_sorted_by_id _ _
    (run_reachable _ _ _ three_posts (reach_init _ _ _))
    (run_reachable _ _ _ three_posts (reach_init _ _ _))))))))).
Defined.

Lemma missing_id_routes (m path : string) (b : req_body) (s : Mem.state) (q : Sql.state) (n : Z) :
  In m ["GET"; "PUT"; "DELETE"] ->
  starts_with_items path = true -> parse_id path = Some n ->
  find (has_id n) (Mem.items s) = None -> Sql.select_by_id q n = None ->
  Mem.handle s (mkRequest m path b) = (item_not_found_response, s) /\
  Sql.handle q (mkRequest m path b) = (item_not_found_response, q).
Proof.
  intros Hm Hsw Hid Hf Hq.
  destruct Hm as [<- | [<- | [<- | []]]]; id_route Hsw Hid;
    cbn -[find Sql.select_by_id]; rewrite Hf, Hq; split; reflexivity.
Qed.

(** X11.  Stored ids are positive: in a reachable state of either server,
    GET, PUT and DELETE on an id that reads as 0 or a negative number (such
    as "/items/0" or "/items/-3") answer 404 "Item not found" whatever the
    body, and leave the store unchanged. *)
Theorem nonpositive_id_not_found (m path : string) (b : req_body) (n : Z)
    (s : Mem.state) (q : Sql.state) :
  reachable Mem.handle Mem.init s -> reachable Sql.handle Sql.init q ->
  In m ["GET"; "PUT"; "DELETE"] ->
  starts_with_items path = true -> parse_id path = Some n -> n <= 0 ->
  Mem.handle s (mkRequest m path b) = (item_not_found_response, s) /\
  Sql.handle q (mkRequest m path b) = (item_not_found_response, q).
Proof.
  intros Hs Hq Hm Hsw Hid Hn.
  pose proof (MemInv.reachable_ok s Hs) as (_ & Hb & _).
  pose proof (SqlInv.sql_reachable_ok q Hq) as (_ & Hbq & _).
  apply (missing_id_routes m path b s q n); try assumption.
  - apply find_absent. eapply Forall_impl; [|exact Hb]. simpl. lia.
  - apply SqlInv.select_by_id_absent. eapply Forall_impl; [|exact Hbq]. simpl. lia.
Qed.

Lemma nonpositive_id_not_found_witness :
  parse_id "/items/-3" = Some (-3) /\
  Mem.handle (snd (run Mem.handle Mem.init three_posts)) (mkRequest "DELETE" "/items/-3" NoBody) =
    (item_not_found_response, snd (run Mem.handle Mem.init three_posts)).
Proof.
  assert (H : parse_id "/items/-3" = Some (-3)) by (vm_compute; reflexivity).
  split; [exact H|].
  exact (proj1 (nonpositive_id_not_found "DELETE" "/items/-3" NoBody (-3) _ _
    (run_reachable _ _ _ three_posts (reach_init _ _ _))
    (run_reachable _ _ _ three_posts (reach_init _ _ _))
    ltac:(simpl; tauto) eq_refl H ltac:(lia))).
Defined.

(** ** What the stores hold *)







(** ** Ids in paths *)

(** X13.  The path "/items/" followed by the decimal digits of a
    non-negative id (what [`/items/${id}`] builds) is routed as an id path;
    [parseInt] reads it back as the nearest double, that is exactly the id
    up to 2^53. *)
Theorem item_path_round_trip (n : Z) :
  0 <= n ->
  starts_with_items (item_path n) = true /\
  parse_id (item_path n) = Some (to_number n) /\
  (n <= 2 ^ 53 -> parse_id (item_path n) = Some n).
Proof.
  intros Hn. split; [apply starts_with_item_path|].
  split; [apply parse_id_item_path, Hn|]. intros H. apply parse_id_exact. lia.
Qed.

Lemma item_path_round_trip_witness :
  item_path 1207 = "/items/1207" /\ parse_id "/items/1207" = Some 1207.
Proof.
  split; [reflexivity|].
  exact (proj2 (proj2 (item_path_round_trip 1207 ltac:(lia))) ltac:(lia)).
Defined.

(** ** Bodies *)

(** X14.  A body that is not JSON is answered 400 "Invalid JSON" by POST
    /items, and by PUT on a stored id, in both servers, and the store is
    unchanged. *)
Theorem malformed_body_invalid_json (path : string) (n : Z) (s : Mem.state) (q : Sql.state) :
  Mem.handle s (post_item Malformed) = (invalid_json_response, s) /\
  Sql.handle q (post_item Malformed) = (invalid_json_response, q) /\
  (starts_with_items path = true -> parse_id path = Some n ->
   find (has_id n) (Mem.items s) <> None ->
   Mem.handle s (mkRequest "PUT" path Malformed) = (invalid_json_response, s)) /\
  (starts_with_items path = true -> parse_id path = Some n ->
   Sql.select_by_id q n <> None ->
   Sql.handle q (mkRequest "PUT" path Malformed) = (invalid_json_response, q)).
Proof.
  split; [reflexivity|]. split; [reflexivity|].
  split; intros Hsw Hid Hf; id_route Hsw Hid; cbn -[find Sql.select_by_id].
  - destruct (find (has_id n) (Mem.items s)); [reflexivity | contradiction].
  - destruct (Sql.select_by_id q n); [reflexivity | contradiction].
Qed.

Lemma validate_fieldless v :
  truthy (Some v) = true -> get_prop (Some v) (js "name") = None ->
  get_prop (Some v) (js "description") = None ->
  validateItemInput (Some v) =
    (false, ["Name is required and must be a non-empty string";
             "Description is required and must be a non-empty string"]).
Proof. intros Ht Hn Hd. unfold validateItemInput. rewrite Ht, Hn, Hd. reflexivity. Qed.

(** X15.  A JSON body that is truthy but has neither a name nor a
    description (an object without them, an array, true, a non-zero number,
    a non-empty string) fails validation with exactly the two "required"
    messages, in this order, in both servers, and the store is unchanged. *)
Theorem fieldless_body_rejected (v : json) (s : Mem.state) (q : Sql.state) :
  truthy (Some v) = true -> get_prop (Some v) (js "name") = None ->
  get_prop (Some v) (js "description") = None ->
  let r := validation_failed_response
             ["Name is required and must be a non-empty string";
              "Description is required and must be a non-empty string"] in
  Mem.handle s (post_item (JsonText v)) = (r, s) /\
  Sql.handle q (post_item (JsonText v)) = (r, q).
Proof.
  intros Ht Hn Hd r. pose proof (validate_fieldless v Ht Hn Hd) as Hv.
  split; [unfold Mem.handle | unfold Sql.handle]; reduce_handler; rewrite Hv; reflexivity.
Qed.

Lemma fieldless_body_rejected_witness :
  Mem.handle Mem.init (post_item (JsonText (JArr []))) =
    (validation_failed_response
       ["Name is required and must be a non-empty string";
        "Description is required and must be a non-empty string"], Mem.init).
Proof. exact (proj1 (fieldless_body_rejected (JArr []) Mem.init Sql.init eq_refl eq_refl eq_refl)). Defined.

(** ** Sequences of writes *)

Lemma mem_posts_from s bs :
  store_inv s -> Mem.nextId s + Z.of_nat (length bs) <= 2 ^ 53 ->
  Forall (fun v => fst (validateItemInput (Some v)) = true) bs ->
  let rs := map (fun v => post_item (JsonText v)) bs in
  map id (Mem.items (snd (run Mem.handle s rs))) =
    (map id (Mem.items s) ++ zseq (Mem.nextId s) (length bs))%list /\
  created_ids (fst (run Mem.handle s rs)) = zseq (Mem.nextId s) (length bs).
Proof.
  revert s. induction bs as [|v bs IH]; intros s Hinv Hlen Hall rs.
  - subst rs. cbn. rewrite app_nil_r. split; reflexivity.
  - inversion Hall as [|? ? Hv Hbs]; subst. subst rs. cbn [map length] in *.
    destruct (validate_valid_fields _ Hv) as (nm & d & Hn & Hd).
    pose proof (mem_post_valid s v nm d Hn Hd Hv) as Hpost.
    pose proof Hinv as (_ & _ & Hr).
    pose proof (MemInv.inv_step s (post_item (JsonText v)) Hinv ltac:(lia)) as Hinv'.
    rewrite Hpost in Hinv'. cbn [snd] in Hinv'.
    rewrite run_cons, Hpost. cbn [fst snd]. rewrite created_ids_cons.
    rewrite to_number_exact in Hinv' |- * by lia.
    destruct (IH _ Hinv') as [Hids Hcr]; [cbn [Mem.nextId]; lia | exact Hbs |].
    cbn [Mem.items Mem.nextId] in Hids, Hcr.
    split.
    + rewrite Hids, map_app, <- app_assoc. reflexivity.
    + rewrite Hcr. reflexivity.
Qed.

(** X16.  From the empty stores, a sequence of k < 2^53 valid POST /items
    numbers the items 1, 2, ..., k in both servers: the created ids are 1..k
    and GET /items lists exactly these ids. *)
Theorem posts_number_from_one (bs : list json) :
  Z.of_nat (length bs) < 2 ^ 53 ->
  Forall (fun v => fst (validateItemInput (Some v)) = true) bs ->
  let rs := map (fun v => post_item (JsonText v)) bs in
  created_ids (fst (run Mem.handle Mem.init rs)) = zseq 1 (length bs) /\
  map id (Mem.items (snd (run Mem.handle Mem.init rs))) = zseq 1 (length bs) /\
  created_ids (fst (run Sql.handle Sql.init rs)) = zseq 1 (length bs) /\
  map id (Sql.select_all (snd (run Sql.handle Sql.init rs))) = zseq 1 (length bs).
Proof.
  intros Hlen Hall rs.
  destruct (mem_posts_from Mem.init bs MemInv.inv_init) as [Hids Hcr];
    [cbn [Mem.nextId Mem.init]; lia | exact Hall |].
  fold rs in Hids, Hcr.
  destruct (Sim.sim_run _ _ rs Sim.sim_init) as (Hr & _ & Hsim);
    [cbn [Mem.nextId Mem.init]; subst rs; rewrite length_map; lia|].
  rewrite <- (created_ids_resp_text _ _ Hr), (Sim.sim_select_all _ _ Hsim), Sim.map_id_text.
  repeat split; assumption.
Qed.

Lemma posts_number_from_one_witness :
  map id (Sql.select_all (snd (run Sql.handle Sql.init
    (map (fun v => post_item (JsonText v)) [sample_body "a" "b"; sample_body "c" "d"])))) = [1; 2].
Proof.
  exact (proj2 (proj2 (proj2 (posts_number_from_one [sample_body "a" "b"; sample_body "c" "d"]
    ltac:(vm_compute; reflexivity) ltac:(repeat constructor))))).
Defined.


